(** * The rule fixture generator (data/generate-test-rules.py)

    A shallow embedding of the script and the properties of its output.
    Python's [random] module is an interface ([RandomGen]); the script's
    functions thread its state and Python's exceptions through a small
    state-and-error monad.  The two products [total_rules * 0.05] and
    [total_rules * 0.03] are binary64 products, computed here with the
    IEEE 754 operations of [SpecFloat]. *)

From Stdlib Require Import ZArith Lia Ascii String List.
From Stdlib Require Import Floats.SpecFloat.
From stdpp Require Import base tactics option list numbers strings pretty gmap.

Local Open Scope string_scope.
Local Open Scope Z_scope.

(** ** Python strings *)

Module Str.

(** [s.startswith(pre)] *)
Definition startswith (s pre : string) : bool := String.prefix pre s.

(** [s.endswith(suf)] *)
Fixpoint endswith (s suf : string) : bool :=
  if String.eqb s suf then true
  else match s with
       | EmptyString => false
       | String _ s' => endswith s' suf
       end.

(** [sub in s] *)
Fixpoint contains (s sub : string) : bool :=
  if String.prefix sub s then true
  else match s with
       | EmptyString => false
       | String _ s' => contains s' sub
       end.

(** [s.replace(old, new)] for a non-empty [old]: every occurrence, left to
    right, without overlap.  [skip] counts the characters of an occurrence
    still to be dropped. *)
Fixpoint replace_from (skip : nat) (old new s : string) : string :=
  match s with
  | EmptyString => EmptyString
  | String c s' =>
      match skip with
      | S k => replace_from k old new s'
      | O =>
          if String.prefix old s
          then new +:+ replace_from (Nat.pred (String.length old)) old new s'
          else String c (replace_from O old new s')
      end
  end.

Definition replace (s old new : string) : string := replace_from O old new s.

Definition is_lower (c : ascii) : bool :=
  let n := nat_of_ascii c in (Nat.leb 97 n && Nat.leb n 122)%bool.
Definition is_upper (c : ascii) : bool :=
  let n := nat_of_ascii c in (Nat.leb 65 n && Nat.leb n 90)%bool.
Definition upper (c : ascii) : ascii :=
  if is_lower c then ascii_of_nat (nat_of_ascii c - 32) else c.
Definition lower (c : ascii) : ascii :=
  if is_upper c then ascii_of_nat (nat_of_ascii c + 32) else c.

(** [s.title()] on ASCII text: a letter that follows a letter is lowered,
    any other letter is raised. *)
Fixpoint title_from (prev_cased : bool) (s : string) : string :=
  match s with
  | EmptyString => EmptyString
  | String c s' =>
      let cased := (is_lower c || is_upper c)%bool in
      String (if prev_cased then lower c else upper c) (title_from cased s')
  end.

Definition title (s : string) : string := title_from false s.

(** [str(n)] *)
Definition of_int (n : Z) : string := pretty n.

Fixpoint zeros (n : nat) : string :=
  match n with O => EmptyString | S k => String "0" (zeros k) end.

(** [f"{n:04d}"]: the sign, then the digits padded with zeros to a total
    width of four. *)
Definition format_04d (n : Z) : string :=
  if n <? 0
  then let d := pretty (Z.to_N (- n)) in
       "-" +:+ zeros (3 - String.length d) +:+ d
  else let d := pretty (Z.to_N n) in
       zeros (4 - String.length d) +:+ d.

End Str.

(** ** Python values and exceptions *)

(** The values a condition can carry: [int], [bool], [str] and lists of them. *)
#[warnings="-register-all"]
Inductive pyval : Type :=
| PInt (n : Z)
| PBool (b : bool)
| PStr (s : string)
| PList (l : list pyval).

(** The exceptions the script's operations can raise. *)
Inductive exn : Type :=
| KeyError (key : string)
| IndexError
| ValueError
| OverflowError
| ZeroDivisionError
| FileNotFoundError
| OSError.

(** ** The [random] module

    The script draws all its randomness from the module-level generator of
    Python's [random].  Its operations are taken with their documented
    contracts, on arguments in their domain: [randint a b] returns an
    integer of [a..b], [choice] an element of the sequence, [sample] a list
    of [k] elements taken at distinct positions of the population, and
    [shuffle] a permutation; [seed] fixes the state. *)
Class RandomGen : Type := {
  rng_state : Type;
  seed : Z -> rng_state;
  randint : Z -> Z -> rng_state -> Z * rng_state;
  choice : forall {A : Type}, A -> list A -> rng_state -> A * rng_state;
  sample : forall {A : Type}, list A -> nat -> rng_state -> list A * rng_state;
  shuffle : forall {A : Type}, list A -> rng_state -> list A * rng_state;
  randint_range : forall a b s, a <= b -> a <= (randint a b s).1 <= b;
  choice_elem : forall (A : Type) (d : A) l s, l <> [] -> (choice d l s).1 ∈ l;
  sample_length : forall (A : Type) (l : list A) k s,
    (k <= length l)%nat -> length (sample l k s).1 = k;
  sample_submseteq : forall (A : Type) (l : list A) k s,
    (k <= length l)%nat -> (sample l k s).1 ⊆+ l;
  shuffle_perm : forall (A : Type) (l : list A) s, (shuffle l s).1 ≡ₚ l
}.

(** *** A linear congruential generator

    A concrete generator on which the script can be run: Knuth's MMIX
    multiplier and increment modulo [2^64], the high bits taken. *)
Module LCG.

Definition next (s : Z) : Z :=
  (s * 6364136223846793005 + 1442695040888963407) mod 2 ^ 64.

Definition randbelow (n : nat) (s : Z) : nat * Z :=
  let s' := next s in (Z.to_nat ((s' / 2 ^ 33) mod Z.of_nat n), s').

Definition randint (a b : Z) (s : Z) : Z * Z :=
  let '(i, s') := randbelow (Z.to_nat (b - a + 1)) s in (a + Z.of_nat i, s').

Definition choice {A : Type} (d : A) (l : list A) (s : Z) : A * Z :=
  let '(i, s') := randbelow (length l) s in (nth i l d, s').

(** [k] draws without replacement: each draw removes the chosen position
    from the pool. *)
Fixpoint sample {A : Type} (l : list A) (k : nat) (s : Z) : list A * Z :=
  match k with
  | O => ([], s)
  | S k' =>
      let '(i, s1) := randbelow (length l) s in
      match l !! i with
      | None => ([], s1)
      | Some x => let '(xs, s2) := sample (delete i l) k' s1 in (x :: xs, s2)
      end
  end.

Definition shuffle {A : Type} (l : list A) (s : Z) : list A * Z :=
  sample l (length l) s.

Definition seed (a : Z) : Z := a mod 2 ^ 64.

End LCG.

(** ** Binary64 arithmetic of the partition sizes *)

Definition prec64 : Z := 53.
Definition emax64 : Z := 1024.

(** The literals [0.05] and [0.03]: the doubles nearest to 1/20 and 3/100,
    [0x1.999999999999ap-5] and [0x1.eb851eb851eb8p-6]. *)
Definition float_0_05 : spec_float := S754_finite false 0x1999999999999a (-57).
Definition float_0_03 : spec_float := S754_finite false 0x1eb851eb851eb8 (-58).

(** The conversion of an [int] operand of a float product; Python raises
    [OverflowError] when the integer is beyond the range of a double. *)
Definition float_of_int (n : Z) : exn + spec_float :=
  match binary_normalize prec64 emax64 n 0 false with
  | S754_infinity _ | S754_nan => inl OverflowError
  | f => inr f
  end.

(** [int(x)]: truncation toward zero. *)
Definition int_of_float (x : spec_float) : exn + Z :=
  match x with
  | S754_zero _ => inr 0
  | S754_finite s m e => inr (cond_Zopp s (Z.shiftl (Z.pos m) e))
  | S754_infinity _ => inl OverflowError
  | S754_nan => inl ValueError
  end.

(** [int(n * c)] for an [int] [n] and a [float] [c] *)
Definition int_mul (n : Z) (c : spec_float) : exn + Z :=
  match float_of_int n with
  | inl e => inl e
  | inr x => int_of_float (SFmul prec64 emax64 x c)
  end.

(** The distribution computed at the head of [generate_test_file]:
    [(num_valid, num_duplicates, num_invalid)]. *)
Definition partition_sizes (total_rules : Z) : exn + Z * Z * Z :=
  match int_mul total_rules float_0_05 with
  | inl e => inl e
  | inr num_duplicates =>
      match int_mul total_rules float_0_03 with
      | inl e => inl e
      | inr num_invalid =>
          let num_valid := total_rules - num_duplicates - num_invalid in
          inr (num_valid, num_duplicates, num_invalid)
      end
  end.

(** The sizes as the specification words them: [floor(0.05 * total)]
    duplicates, [floor(0.03 * total)] invalid rules, the rest valid. *)
Definition spec_partition_sizes (totalCount : Z) : Z * Z * Z :=
  let duplicates := 5 * totalCount / 100 in
  let invalid := 3 * totalCount / 100 in
  (totalCount - duplicates - invalid, duplicates, invalid).

(** ** The monad of the script: generator state and exceptions *)

Section Generator.
Context {R : RandomGen}.

(** A computation reads and advances the state of the module-level
    generator, and either returns or raises. *)
Definition M (A : Type) : Type := rng_state -> exn + A * rng_state.

#[export] Instance M_ret : MRet M := fun A x s => inr (x, s).
#[export] Instance M_bind : MBind M := fun A B f m s =>
  match m s with
  | inl e => inl e
  | inr (x, s') => f x s'
  end.
#[export] Instance M_fmap : FMap M := fun A B f m => x ← m; mret (f x).

Definition raise {A : Type} (e : exn) : M A := fun _ => inl e.

(** A call of the [random] module, which cannot raise. *)
Definition draw {A : Type} (f : rng_state -> A * rng_state) : M A :=
  fun s => inr (f s).

(** [random.randint(a, b)]; an empty range is a [ValueError]. *)
Definition py_randint (a b : Z) : M Z :=
  if decide (a <= b) then draw (randint a b) else raise ValueError.

(** [random.choice(seq)]; an empty sequence is an [IndexError]. *)
Definition py_choice {A : Type} (l : list A) : M A :=
  match l with
  | [] => raise IndexError
  | d :: _ => draw (choice d l)
  end.

(** [random.sample(population, k)]; a [k] outside [0..len] is a
    [ValueError]. *)
Definition py_sample {A : Type} (l : list A) (k : Z) : M (list A) :=
  if decide (0 <= k <= Z.of_nat (length l))
  then draw (sample l (Z.to_nat k))
  else raise ValueError.

(** [d[key]] on a dictionary *)
Definition py_getitem {V : Type} (d : gmap string V) (key : string) : M V :=
  match d !! key with
  | Some v => mret v
  | None => raise (KeyError key)
  end.

(** [l[i]] on a list, for an index that is not negative *)
Definition py_index {A : Type} (l : list A) (i : Z) : M A :=
  match l !! Z.to_nat i with
  | Some v => mret v
  | None => raise IndexError
  end.

(** [for _ in range(n): xs.append(body())] *)
Fixpoint repeatM {A : Type} (n : nat) (body : M A) : M (list A) :=
  match n with
  | O => mret []
  | S n' => x ← body; xs ← repeatM n' body; mret (x :: xs)
  end.

(** ** The script's tables *)

Definition FAMILIES : list string :=
  [ "fraud_detection"; "customer_segmentation"; "pricing_engine";
    "marketing_automation"; "risk_assessment"; "compliance_check";
    "payment_processing"; "inventory_management"; "order_fulfillment";
    "user_authentication" ].

Definition FAMILY_FIELDS : gmap string (list string) :=
  list_to_map
  [ ("fraud_detection",
     ["transaction_amount"; "country"; "device_fingerprint"; "ip_address";
      "transaction_count_24h"]);
    ("customer_segmentation",
     ["customer_tier"; "lifetime_value"; "account_age_days";
      "purchase_frequency"; "avg_order_value"]);
    ("pricing_engine",
     ["product_category"; "quantity"; "customer_segment"; "season";
      "competitor_price"]);
    ("marketing_automation",
     ["email_open_rate"; "click_through_rate"; "campaign_type";
      "customer_engagement_score"]);
    ("risk_assessment",
     ["credit_score"; "debt_to_income_ratio"; "employment_status";
      "payment_history_score"]);
    ("compliance_check",
     ["jurisdiction"; "document_type"; "verification_status"; "kyc_level"]);
    ("payment_processing",
     ["payment_method"; "amount"; "currency"; "merchant_category";
      "card_type"]);
    ("inventory_management",
     ["stock_level"; "reorder_point"; "product_category";
      "warehouse_location"]);
    ("order_fulfillment",
     ["order_status"; "shipping_method"; "delivery_priority";
      "package_weight"]);
    ("user_authentication",
     ["login_attempts"; "last_login_days_ago"; "mfa_enabled";
      "account_status"]) ].

Definition VECTORIZABLE_OPERATORS : list string :=
  ["EQUAL_TO"; "NOT_EQUAL_TO"; "IS_ANY_OF"; "IS_NONE_OF"].
Definition NON_VECTORIZABLE_OPERATORS : list string :=
  ["GREATER_THAN"; "LESS_THAN"; "BETWEEN"].
Definition ALL_OPERATORS : list string :=
  (VECTORIZABLE_OPERATORS ++ NON_VECTORIZABLE_OPERATORS)%list.

Definition SAMPLE_VALUES : gmap string (list pyval) :=
  list_to_map
  [ ("country", PStr <$> ["US"; "UK"; "CA"; "DE"; "FR"; "JP"; "AU"]);
    ("status", PStr <$> ["ACTIVE"; "INACTIVE"; "PENDING"; "SUSPENDED"]);
    ("tier", PStr <$> ["BRONZE"; "SILVER"; "GOLD"; "PLATINUM"]);
    ("category", PStr <$> ["ELECTRONICS"; "CLOTHING"; "FOOD"; "BOOKS"; "SPORTS"]);
    ("method", PStr <$> ["CREDIT_CARD"; "DEBIT_CARD"; "PAYPAL"; "WIRE_TRANSFER"]);
    ("boolean", PBool <$> [true; false]) ].

(** ** Records *)

Record condition : Type := Condition {
  field : string;
  operator : string;
  value : pyval
}.

(** A rule is a dictionary with the six keys below, in this order; the
    script deletes at most one of the first three, which is [None] here. *)
Record rule : Type := Rule {
  rule_code : option string;
  description : option string;
  conditions : option (list condition);
  priority : Z;
  enabled : bool;
  tags : list string
}.

Definition del_rule_code (r : rule) : rule :=
  Rule None (description r) (conditions r) (priority r) (enabled r) (tags r).
Definition del_description (r : rule) : rule :=
  Rule (rule_code r) None (conditions r) (priority r) (enabled r) (tags r).
Definition del_conditions (r : rule) : rule :=
  Rule (rule_code r) (description r) None (priority r) (enabled r) (tags r).
Definition set_conditions (cs : list condition) (r : rule) : rule :=
  Rule (rule_code r) (description r) (Some cs) (priority r) (enabled r) (tags r).
Definition set_priority (p : Z) (r : rule) : rule :=
  Rule (rule_code r) (description r) (conditions r) p (enabled r) (tags r).

(** ** [generate_rule] *)

(** The body of the loop over [range(num_conditions)]: one condition. *)
Definition generate_condition (fields : list string) : M condition :=
  field ← py_choice fields;
  operator ← py_choice ALL_OPERATORS;
  value ←
    (if bool_decide (operator ∈ ["IS_ANY_OF"; "IS_NONE_OF"]) then
       k ← py_randint 2 4;
       PList <$> py_sample
         (default (PStr <$> ["US"; "UK"; "CA"]) (SAMPLE_VALUES !! "country")) k
     else if bool_decide (operator = "BETWEEN") then
       min_val ← py_randint 100 5000;
       delta ← py_randint 1000 5000;
       let max_val := min_val + delta in
       mret (PList [PInt min_val; PInt max_val])
     else if Str.contains operator "THAN" then
       PInt <$> py_randint 100 10000
     else if (Str.endswith field "_enabled" || Str.endswith field "mfa_enabled")%bool then
       PBool <$> py_choice [true; false]
     else
       py_choice
         (default (PStr <$> ["ACTIVE"; "PENDING"]) (SAMPLE_VALUES !! "status")));
  mret (Condition field operator value).

Definition INVALID_TYPES : list string :=
  [ "missing_rule_code"; "missing_description"; "missing_conditions";
    "empty_conditions"; "invalid_priority_high"; "invalid_priority_low";
    "invalid_priority_negative" ].

(** The [if]/[elif] chain on [invalid_type]. *)
Definition corrupt (invalid_type : string) (r : rule) : rule :=
  if bool_decide (invalid_type = "missing_rule_code") then del_rule_code r
  else if bool_decide (invalid_type = "missing_description") then del_description r
  else if bool_decide (invalid_type = "missing_conditions") then del_conditions r
  else if bool_decide (invalid_type = "empty_conditions") then set_conditions [] r
  else if bool_decide (invalid_type = "invalid_priority_high") then set_priority 1500 r
  else if bool_decide (invalid_type = "invalid_priority_low") then set_priority (-10) r
  else if bool_decide (invalid_type = "invalid_priority_negative") then set_priority (-100) r
  else r.

(** The tags of rule number [rule_num] of [family]. *)
Definition rule_tags (rule_num : Z) (family : string) : list string :=
  let tags := [family; "batch_" +:+ Str.of_int (rule_num `div` 100)] in
  let tags :=
    if bool_decide (rule_num `mod` 10 = 0)
    then (tags ++ ["production-critical"; "high-priority"])%list else tags in
  if bool_decide (rule_num `mod` 7 = 0) then (tags ++ ["vectorized"])%list else tags.

(** [f"{family}.rule_{num:04d}"] *)
Definition rule_code_of (family : string) (num : Z) : string :=
  family +:+ ".rule_" +:+ Str.format_04d num.

(** [f"{family.replace('_', ' ').title()} Rule {rule_num}"] *)
Definition description_of (family : string) (rule_num : Z) : string :=
  Str.title (Str.replace family "_" " ") +:+ " Rule " +:+ Str.of_int rule_num.

Definition generate_rule (rule_num : Z) (family : string)
    (is_duplicate is_invalid : bool) : M rule :=
  rule_code ←
    (if is_duplicate then
       offset ← py_randint 100 500;
       let duplicate_num := Z.max 1 (rule_num - offset) in
       mret (rule_code_of family duplicate_num)
     else
       mret (rule_code_of family rule_num));
  fields ← py_getitem FAMILY_FIELDS family;
  num_conditions ← py_randint 1 4;
  conditions ← repeatM (Z.to_nat num_conditions) (generate_condition fields);
  priority ← py_randint 1 1000;
  enabled ← py_choice [true; true; true; false];
  let rule :=
    Rule (Some rule_code) (Some (description_of family rule_num))
         (Some conditions) priority enabled (rule_tags rule_num family) in
  if is_invalid then
    invalid_type ← py_choice INVALID_TYPES;
    mret (corrupt invalid_type rule)
  else mret rule.

(** ** [generate_test_file] *)

(** [range(n)] *)
Definition range (n : Z) : list Z := seqZ 0 n.

(** One of the three generation loops: [rules] and [rule_num] are the
    variables the loop body updates. *)
Fixpoint gen_loop (idx : list Z) (is_duplicate is_invalid : bool)
    (rules : list rule) (rule_num : Z) : M (list rule * Z) :=
  match idx with
  | [] => mret (rules, rule_num)
  | i :: idx' =>
      family ← py_index FAMILIES (i `mod` Z.of_nat (length FAMILIES));
      rule ← generate_rule rule_num family is_duplicate is_invalid;
      gen_loop idx' is_duplicate is_invalid (rules ++ [rule])%list (rule_num + 1)
  end.

(** The list [rules] before it is shuffled: valid, then duplicate, then
    invalid rules. *)
Definition generate_unshuffled (num_valid num_duplicates num_invalid : Z)
    : M (list rule) :=
  '(rules, rule_num) ← gen_loop (range num_valid) false false [] 1;
  '(rules, rule_num) ← gen_loop (range num_duplicates) true false rules rule_num;
  '(rules, rule_num) ← gen_loop (range num_invalid) false true rules rule_num;
  mret rules.

(** The list [rules] as it is written: [random.shuffle(rules)]. *)
Definition generate_rules (num_valid num_duplicates num_invalid : Z)
    : M (list rule) :=
  rules ← generate_unshuffled num_valid num_duplicates num_invalid;
  draw (shuffle rules).

Record stats : Type := Stats {
  total_rules : Z;
  valid_rules : Z;
  duplicate_rules : Z;
  invalid_rules : Z;
  families : list (string * nat)
}.

(** [sum(1 for r in rules if r.get("rule_code", "").startswith(family))] *)
Definition family_count (rules : list rule) (family : string) : nat :=
  length (filter (fun r => Str.startswith (default "" (rule_code r)) family = true) rules).

(** The dictionary [stats["families"]], in insertion order. *)
Definition family_counts (rules : list rule) : list (string * nat) :=
  (fun family => (family, family_count rules family)) <$> FAMILIES.

(** What a file holds: the rules, one JSON object a line, or the
    statistics, one JSON object.  [json.dumps] is a function of the value. *)
Inductive file : Type :=
| Jsonl (rules : list rule)
| Json (st : stats).

(** The world of a run: the state of the generator, the files, and what
    the system answers when a path is opened for writing: [None] when
    [open(path, 'w')] succeeds, or the exception it raises
    ([FileNotFoundError] for an empty name or a missing directory,
    [ValueError] for a name with a NUL byte, another [OSError]).  A file
    that was opened is taken to be written and closed without error. *)
Record world : Type := World {
  rng : rng_state;
  fs : gmap string file;
  open_error : string -> option exn
}.

(** A world in which every path can be opened for writing. *)
Definition writable_world (s : rng_state) (files : gmap string file) : world :=
  World s files (fun _ => None).

(** The integers [str] and the f-strings refuse to print (CPython's
    default limit of 4300 digits, [sys.int_info.default_max_str_digits]):
    those of absolute value [10^4300] or more. *)
Definition MAX_STR_INT : Z := 10 ^ 4300.

(** The run of [generate_test_file(filename, total_rules)]: the exception
    it ends with, if any, and the world it leaves.  The first line it
    prints formats [total_rules] and raises [ValueError] beyond the digit
    limit; the sizes are computed next, the rules generated and shuffled,
    then each file is opened (which can fail) and written.  Of the other
    lines printed only the exception of the summary is kept:
    [num_valid/total_rules] divides by zero when [total_rules] is 0, after
    both files are written.  Standard output is taken to accept the text. *)
Definition generate_test_file (filename : string) (total_rules : Z) (w : world)
    : option exn * world :=
  if decide (MAX_STR_INT <= Z.abs total_rules) then (Some ValueError, w)
  else
  match partition_sizes total_rules with
  | inl e => (Some e, w)
  | inr (num_valid, num_duplicates, num_invalid) =>
      match generate_rules num_valid num_duplicates num_invalid (rng w) with
      | inl e => (Some e, w)
      | inr (rules, s) =>
          match open_error w filename with
          | Some e => (Some e, World s (fs w) (open_error w))
          | None =>
              let fs1 := <[filename := Jsonl rules]> (fs w) in
              let st := Stats total_rules num_valid num_duplicates num_invalid
                              (family_counts rules) in
              let stats_filename := Str.replace filename ".jsonl" "_stats.json" in
              match open_error w stats_filename with
              | Some e => (Some e, World s fs1 (open_error w))
              | None =>
                  let fs2 := <[stats_filename := Json st]> fs1 in
                  let w' := World s fs2 (open_error w) in
                  if decide (total_rules = 0) then (Some ZeroDivisionError, w')
                  else (None, w')
              end
          end
      end
  end.

(** The path of the statistics file. *)
Definition stats_path (filename : string) : string :=
  Str.replace filename ".jsonl" "_stats.json".

(** The files a run writes, when the sizes are computed and the rules
    generated: the rules first, the statistics second. *)
Definition written (filename : string) (rules : list rule) (st : stats)
    : gmap string file :=
  <[stats_path filename := Json st]> (<[filename := Jsonl rules]> ∅).

(** The number of records with a given rule code. *)
Definition code_count (code : string) (rules : list rule) : nat :=
  length (filter (fun c => c = Some code) (rule_code <$> rules)).

(** The rule codes the record at index [k] of a loop can get, the counter
    being [start] when the loop begins: its own number, or for a duplicate
    the numbers 100 to 500 back, floored at 1. *)
Definition slot_codes (is_duplicate : bool) (start : Z) (k : nat) : list string :=
  let rule_num := start + Z.of_nat k in
  let family := default "" (FAMILIES !! Z.to_nat (Z.of_nat k `mod` 10)) in
  rule_code_of family <$>
    (if is_duplicate
     then seqZ (Z.max 1 (rule_num - 500))
               (Z.max 1 (rule_num - 100) - Z.max 1 (rule_num - 500) + 1)
     else [rule_num]).

(** The families whose count a record contributes to. *)
Definition families_hit (r : rule) : list string :=
  filter (fun family => Str.startswith (default "" (rule_code r)) family = true)
         FAMILIES.

(** The number of records without the key [rule_code]. *)
Definition missing_rule_code (rules : list rule) : nat :=
  length (filter (fun r => rule_code r = None) rules).

(** The sum of the per-family counts. *)
Definition sum_counts (counts : list (string * nat)) : nat := sum_list (counts.*2).

(** A run that rejects its input up front: it raises and has changed
    nothing. *)
Definition rejected_up_front (result : option exn * world) (w : world) : Prop :=
  exists e, result = (Some e, w).

(** The script run as a program: [random.seed(42)], then the generation
    of 3000 rules. *)
Definition main_with (seed_value : Z) (filename : string) (total_rules : Z)
    (w : world) : option exn * world :=
  generate_test_file filename total_rules
    (World (seed seed_value) (fs w) (open_error w)).

Definition main : world -> option exn * world :=
  main_with 42 "rules/test-rules-3k.jsonl" 3000.

End Generator.

(** ** What a generated rule looks like *)

Definition COUNTRIES : list string := ["US"; "UK"; "CA"; "DE"; "FR"; "JP"; "AU"].
Definition STATUSES : list string := ["ACTIVE"; "INACTIVE"; "PENDING"; "SUSPENDED"].

(** The value of a condition, by its operator. *)
Definition value_ok (c : condition) : Prop :=
  (operator c ∈ ["IS_ANY_OF"; "IS_NONE_OF"] /\
   exists xs, value c = PList xs /\ (2 <= length xs <= 4)%nat /\ NoDup xs /\
              forall x, x ∈ xs -> x ∈ PStr <$> COUNTRIES)
  \/ (operator c = "BETWEEN" /\
      exists lo delta, value c = PList [PInt lo; PInt (lo + delta)] /\
                       100 <= lo <= 5000 /\ 1000 <= delta <= 5000)
  \/ (operator c ∈ ["GREATER_THAN"; "LESS_THAN"] /\
      exists n, value c = PInt n /\ 100 <= n <= 10000)
  \/ (operator c ∈ ["EQUAL_TO"; "NOT_EQUAL_TO"] /\
      ((exists b, value c = PBool b) \/ (exists st, value c = PStr st /\ st ∈ STATUSES))).

Definition condition_ok (fields : list string) (c : condition) : Prop :=
  field c ∈ fields /\ value_ok c.

(** A rule as [generate_rule] builds it before any corruption. *)
Definition base_rule_ok (rule_num : Z) (family : string) (fields : list string)
    (is_duplicate : bool) (r : rule) : Prop :=
  (exists num, rule_code r = Some (rule_code_of family num) /\
     if is_duplicate
     then exists offset, 100 <= offset <= 500 /\ num = Z.max 1 (rule_num - offset)
     else num = rule_num)
  /\ description r = Some (description_of family rule_num)
  /\ (exists cs, conditions r = Some cs /\ (1 <= length cs <= 4)%nat /\
                 Forall (condition_ok fields) cs)
  /\ 1 <= priority r <= 1000
  /\ tags r = rule_tags rule_num family.

(** A rule as [generate_rule] returns it. *)
Definition generated_ok (rule_num : Z) (family : string) (fields : list string)
    (is_duplicate is_invalid : bool) (r : rule) : Prop :=
  exists base, base_rule_ok rule_num family fields is_duplicate base /\
    if is_invalid
    then exists invalid_type, invalid_type ∈ INVALID_TYPES /\ r = corrupt invalid_type base
    else r = base.

(** The record generated at index [i] of a loop, with rule number
    [rule_num]. *)
Definition slot_ok (is_duplicate is_invalid : bool) (i rule_num : Z) (r : rule) : Prop :=
  exists family fields,
    FAMILIES !! Z.to_nat (i `mod` 10) = Some family /\
    FAMILY_FIELDS !! family = Some fields /\ fields <> [] /\
    generated_ok rule_num family fields is_duplicate is_invalid r.

(** The records one loop of [n] rounds appends, the counter being [start]
    when it begins. *)
Definition batch_ok (is_duplicate is_invalid : bool) (start n : Z)
    (batch : list rule) : Prop :=
  length batch = Z.to_nat n /\
  forall (k : nat) r, batch !! k = Some r ->
    slot_ok is_duplicate is_invalid (Z.of_nat k) (start + Z.of_nat k) r.

(** The three partitions of the run, in generation order. *)
Definition partitions_ok (num_valid num_duplicates num_invalid : Z)
    (valid duplicate invalid : list rule) : Prop :=
  batch_ok false false 1 num_valid valid /\
  batch_ok true false (1 + Z.max 0 num_valid) num_duplicates duplicate /\
  batch_ok false true (1 + Z.max 0 num_valid + Z.max 0 num_duplicates)
           num_invalid invalid.

(** A rule that some call of [generate_rule] made for one of the families. *)
Definition generated (r : rule) : Prop :=
  exists rule_num family fields is_duplicate is_invalid,
    family ∈ FAMILIES /\ FAMILY_FIELDS !! family = Some fields /\
    generated_ok rule_num family fields is_duplicate is_invalid r.

(** The value shapes of the operators with a list value. *)
Definition shape_ok (c : condition) : Prop :=
  (operator c = "BETWEEN" ->
     exists lo hi, value c = PList [PInt lo; PInt hi] /\ lo <= hi)
  /\ (operator c ∈ ["IS_ANY_OF"; "IS_NONE_OF"] ->
     exists xs, value c = PList xs /\ (2 <= length xs <= 4)%nat).

(** The stronger shapes the code gives them. *)
Definition strict_shape_ok (c : condition) : Prop :=
  (operator c ∈ ["IS_ANY_OF"; "IS_NONE_OF"] ->
     exists xs, value c = PList xs /\ NoDup xs /\
       forall x, x ∈ xs -> exists code, x = PStr code /\ code ∈ COUNTRIES)
  /\ (operator c = "BETWEEN" ->
     exists lo hi, value c = PList [PInt lo; PInt hi] /\
       1000 <= hi - lo <= 5000 /\ lo < hi).

(** The seven corruptions of an invalid rule. *)
Inductive corruption : Type :=
| MissingRuleCode
| MissingDescription
| MissingConditions
| EmptyConditions
| PriorityHigh
| PriorityLow
| PriorityNegative.

Definition exhibits (c : corruption) (r : rule) : Prop :=
  match c with
  | MissingRuleCode => rule_code r = None
  | MissingDescription => description r = None
  | MissingConditions => conditions r = None
  | EmptyConditions => conditions r = Some []
  | PriorityHigh => priority r = 1500
  | PriorityLow => priority r = -10
  | PriorityNegative => priority r = -100
  end.



(** ** Further predicates on records *)

(** A record with all its keys, a priority in range, and none of the
    seven corruptions. *)
Definition well_formed (r : rule) : Prop :=
  is_Some (rule_code r) /\ is_Some (description r)
  /\ (exists cs, conditions r = Some cs /\ (1 <= length cs <= 4)%nat)
  /\ 1 <= priority r <= 1000
  /\ forall c, ~ exhibits c r.

(** The value of a condition whose operator takes a scalar: a boolean or
    a status for the equality operators, by the field; an integer for the
    comparisons. *)
Definition scalar_ok (c : condition) : Prop :=
  (operator c ∈ ["EQUAL_TO"; "NOT_EQUAL_TO"] ->
     (field c = "mfa_enabled" /\ exists b, value c = PBool b)
     \/ (field c <> "mfa_enabled" /\
         exists st, value c = PStr st /\ st ∈ STATUSES))
  /\ (operator c ∈ ["GREATER_THAN"; "LESS_THAN"] ->
      exists n, value c = PInt n /\ 100 <= n <= 10000).

(** The same, by the test the code makes on the field. *)
Definition scalar_by_suffix (c : condition) : Prop :=
  (operator c ∈ ["EQUAL_TO"; "NOT_EQUAL_TO"] ->
     if (Str.endswith (field c) "_enabled" || Str.endswith (field c) "mfa_enabled")%bool
     then exists b, value c = PBool b
     else exists st, value c = PStr st /\ st ∈ STATUSES)
  /\ (operator c ∈ ["GREATER_THAN"; "LESS_THAN"] ->
      exists n, value c = PInt n /\ 100 <= n <= 10000).

(** ** The string functions and the float literals on examples *)

Example format_04d_7 : Str.format_04d 7 = "0007".
Proof. reflexivity. Qed.
Example format_04d_2761 : Str.format_04d 2761 = "2761".
Proof. reflexivity. Qed.
Example format_04d_12345 : Str.format_04d 12345 = "12345".
Proof. reflexivity. Qed.
Example format_04d_neg : Str.format_04d (-5) = "-005".
Proof. reflexivity. Qed.
Example title_family :
  Str.title (Str.replace "fraud_detection" "_" " ") = "Fraud Detection".
Proof. reflexivity. Qed.
Example replace_jsonl :
  Str.replace "rules/test-rules-3k.jsonl" ".jsonl" "_stats.json"
  = "rules/test-rules-3k_stats.json".
Proof. reflexivity. Qed.
Example replace_twice : Str.replace "a.jsonl.jsonl" ".jsonl" "_" = "a__".
Proof. reflexivity. Qed.
Example of_int_neg : Str.of_int (-5) = "-5".
Proof. reflexivity. Qed.
Example contains_than : Str.contains "GREATER_THAN" "THAN" = true.
Proof. reflexivity. Qed.
Example endswith_enabled : Str.endswith "mfa_enabled" "_enabled" = true.
Proof. reflexivity. Qed.

(** The two literals are the doubles nearest to 1/20 and 3/100: 53-bit
    mantissas within half a unit in the last place. *)
Lemma float_literals_nearest :
  2 ^ 52 <= 0x1999999999999a < 2 ^ 53 /\
  Z.abs (20 * 0x1999999999999a - 2 ^ 57) <= 10 /\
  float_0_05 = S754_finite false 0x1999999999999a (-57) /\
  2 ^ 52 <= 0x1eb851eb851eb8 < 2 ^ 53 /\
  Z.abs (100 * 0x1eb851eb851eb8 - 3 * 2 ^ 58) <= 50 /\
  float_0_03 = S754_finite false 0x1eb851eb851eb8 (-58).
Proof. repeat split; by vm_compute. Qed.

Example partition_sizes_3000 : partition_sizes 3000 = inr (2760, 150, 90).
Proof. reflexivity. Qed.
Example partition_sizes_0 : partition_sizes 0 = inr (0, 0, 0).
Proof. reflexivity. Qed.
Example partition_sizes_overflow : partition_sizes (2 ^ 1024) = inl OverflowError.
Proof. by vm_compute. Qed.

(** ** Reasoning about computations *)

Section Returns.
Context {R : RandomGen}.

(** [returns m P]: from every state of the generator, [m] returns (it does
    not raise) and its result satisfies [P]. *)
Definition returns {A : Type} (m : M A) (P : A -> Prop) : Prop :=
  forall s, exists x s', m s = inr (x, s') /\ P x.

Lemma returns_ret {A : Type} (x : A) (P : A -> Prop) : P x -> returns (mret x) P.
Proof. intros HP s. by exists x, s. Qed.

Lemma returns_bind {A B : Type} (m : M A) (f : A -> M B) (Q : A -> Prop) (P : B -> Prop) :
  returns m Q -> (forall x, Q x -> returns (f x) P) -> returns (m ≫= f) P.
Proof.
  intros Hm Hf s. destruct (Hm s) as (x & s1 & Hx & HQ).
  destruct (Hf x HQ s1) as (y & s2 & Hy & HP).
  exists y, s2. split; [|done].
  unfold mbind, M_bind. by rewrite Hx.
Qed.

Lemma returns_mono {A : Type} (m : M A) (P Q : A -> Prop) :
  returns m P -> (forall x, P x -> Q x) -> returns m Q.
Proof.
  intros Hm HPQ s. destruct (Hm s) as (x & s' & Hx & HP). eauto.
Qed.

Lemma returns_fmap {A B : Type} (f : A -> B) (m : M A) (Q : A -> Prop) (P : B -> Prop) :
  returns m Q -> (forall x, Q x -> P (f x)) -> returns (f <$> m) P.
Proof.
  intros Hm HQP. unfold fmap, M_fmap.
  eapply returns_bind; [exact Hm|]. cbn beta. intros x HQ. apply returns_ret; auto.
Qed.

Lemma returns_randint (a b : Z) :
  a <= b -> returns (py_randint a b) (fun x => a <= x <= b).
Proof.
  intros Hab s. unfold py_randint. rewrite decide_True by done.
  unfold draw. destruct (randint a b s) as [x s'] eqn:E.
  exists x, s'. split; [done|].
  pose proof (randint_range a b s Hab) as Hr. by rewrite E in Hr.
Qed.

Lemma returns_choice {A : Type} (l : list A) :
  l <> [] -> returns (py_choice l) (fun x => x ∈ l).
Proof.
  intros Hl s. destruct l as [|d l]; [done|]. cbn [py_choice]. unfold draw.
  destruct (choice d (d :: l) s) as [x s'] eqn:E.
  exists x, s'. split; [done|].
  pose proof (choice_elem _ d (d :: l) s Hl) as Hc. by rewrite E in Hc.
Qed.

Lemma returns_sample {A : Type} (l : list A) (k : Z) :
  0 <= k <= Z.of_nat (length l) ->
  returns (py_sample l k) (fun xs => Z.of_nat (length xs) = k /\ xs ⊆+ l).
Proof.
  intros Hk s. unfold py_sample. rewrite decide_True by done. unfold draw.
  destruct (sample l (Z.to_nat k) s) as [xs s'] eqn:E.
  exists xs, s'. split; [done|].
  pose proof (sample_length _ l (Z.to_nat k) s ltac:(lia)) as Hl.
  pose proof (sample_submseteq _ l (Z.to_nat k) s ltac:(lia)) as Hs.
  rewrite E in Hl, Hs. cbn [fst] in *. split; [lia|done].
Qed.

Lemma returns_shuffle {A : Type} (l : list A) :
  returns (draw (shuffle l)) (fun xs => xs ≡ₚ l).
Proof.
  intros s. unfold draw. destruct (shuffle l s) as [xs s'] eqn:E.
  exists xs, s'. split; [done|].
  pose proof (shuffle_perm _ l s) as Hp. by rewrite E in Hp.
Qed.

Lemma returns_getitem {V : Type} (d : gmap string V) (key : string) (v : V) :
  d !! key = Some v -> returns (py_getitem d key) (fun x => x = v).
Proof. intros Hk s. unfold py_getitem. rewrite Hk. by exists v, s. Qed.

Lemma returns_index {A : Type} (l : list A) (i : Z) (v : A) :
  l !! Z.to_nat i = Some v -> returns (py_index l i) (fun x => x = v).
Proof. intros Hk s. unfold py_index. rewrite Hk. by exists v, s. Qed.

Lemma returns_repeatM {A : Type} (n : nat) (body : M A) (P : A -> Prop) :
  returns body P ->
  returns (repeatM n body) (fun xs => length xs = n /\ Forall P xs).
Proof.
  intros Hb. induction n as [|n IH]; cbn [repeatM].
  - by apply returns_ret.
  - eapply returns_bind; [exact Hb|]. cbn beta. intros x Hx.
    eapply returns_bind; [exact IH|]. cbn beta. intros xs [Hlen Hxs].
    apply returns_ret. cbn [length]. split; [lia|by constructor].
Qed.

End Returns.

(** ** The linear congruential generator meets the contracts *)

Lemma LCG_randbelow_lt (n : nat) (s : Z) :
  (0 < n)%nat -> ((LCG.randbelow n s).1 < n)%nat.
Proof.
  intros Hn. unfold LCG.randbelow. cbn [fst].
  pose proof (Z.mod_pos_bound (LCG.next s / 2 ^ 33) (Z.of_nat n)). lia.
Qed.

Lemma LCG_randint_range (a b s : Z) : a <= b -> a <= (LCG.randint a b s).1 <= b.
Proof.
  intros Hab. unfold LCG.randint.
  pose proof (LCG_randbelow_lt (Z.to_nat (b - a + 1)) s).
  destruct (LCG.randbelow _ s) as [i s']. cbn [fst] in *. lia.
Qed.

Lemma LCG_choice_elem (A : Type) (d : A) (l : list A) (s : Z) :
  l <> [] -> (LCG.choice d l s).1 ∈ l.
Proof.
  intros Hl. unfold LCG.choice.
  pose proof (LCG_randbelow_lt (length l) s) as Hlt.
  destruct (LCG.randbelow _ s) as [i s']. cbn [fst] in *.
  apply list_elem_of_In, nth_In, Hlt.
  destruct l; [done | cbn; lia].
Qed.

Lemma LCG_sample_length (A : Type) (l : list A) (k : nat) (s : Z) :
  (k <= length l)%nat -> length (LCG.sample l k s).1 = k.
Proof.
  revert l s. induction k as [|k IH]; intros l s Hk; [done|].
  cbn [LCG.sample].
  pose proof (LCG_randbelow_lt (length l) s) as Hlt.
  destruct (LCG.randbelow _ s) as [i s1]. cbn [fst] in Hlt.
  destruct (lookup_lt_is_Some_2 l i) as [x Hx]; [lia|]. rewrite Hx.
  specialize (IH (delete i l) s1).
  destruct (LCG.sample (delete i l) k s1) as [xs s2]. cbn [fst length] in *.
  rewrite IH; [done|]. rewrite length_delete by eauto. lia.
Qed.

Lemma LCG_sample_submseteq (A : Type) (l : list A) (k : nat) (s : Z) :
  (k <= length l)%nat -> (LCG.sample l k s).1 ⊆+ l.
Proof.
  revert l s. induction k as [|k IH]; intros l s Hk.
  - apply submseteq_nil_l.
  - cbn [LCG.sample].
    pose proof (LCG_randbelow_lt (length l) s) as Hlt.
    destruct (LCG.randbelow _ s) as [i s1]. cbn [fst] in Hlt.
    destruct (lookup_lt_is_Some_2 l i) as [x Hx]; [lia|]. rewrite Hx.
    specialize (IH (delete i l) s1).
    destruct (LCG.sample (delete i l) k s1) as [xs s2]. cbn [fst] in *.
    rewrite (delete_Permutation l i x Hx). apply submseteq_skip, IH.
    rewrite length_delete by eauto. lia.
Qed.

Lemma LCG_shuffle_perm (A : Type) (l : list A) (s : Z) :
  (LCG.shuffle l s).1 ≡ₚ l.
Proof.
  apply submseteq_length_Permutation.
  - apply LCG_sample_submseteq. lia.
  - unfold LCG.shuffle. rewrite LCG_sample_length; lia.
Qed.

#[local] Instance LCG_random : RandomGen := {|
  rng_state := Z;
  seed := LCG.seed;
  randint := LCG.randint;
  choice := @LCG.choice;
  sample := @LCG.sample;
  shuffle := @LCG.shuffle;
  randint_range := LCG_randint_range;
  choice_elem := LCG_choice_elem;
  sample_length := LCG_sample_length;
  sample_submseteq := LCG_sample_submseteq;
  shuffle_perm := LCG_shuffle_perm
|}.


Section GenerateRule.
Context {R : RandomGen}.

Ltac elem_tac := repeat first [apply list_elem_of_here | apply list_elem_of_further].

Ltac eval_if :=
  match goal with
  | |- context [if ?b then _ else _] =>
      let v := eval vm_compute in b in
      first [ change b with true | change b with false ]; cbv iota
  end.

Lemma submseteq_NoDup {A : Type} (l k : list A) : l ⊆+ k -> NoDup k -> NoDup l.
Proof.
  intros [k' Hk]%submseteq_Permutation Hnd. rewrite Hk in Hnd.
  by apply NoDup_app in Hnd as (? & _ & _).
Qed.

Lemma NoDup_countries : NoDup (PStr <$> COUNTRIES).
Proof.
  apply NoDup_fmap_2; [by intros ?? [=]|].
  apply (bool_decide_unpack _). by vm_compute.
Qed.

(** The four ways [generate_condition] draws a value. *)

Lemma returns_set_value :
  returns (k ← py_randint 2 4;
           PList <$> py_sample
             (default (PStr <$> ["US"; "UK"; "CA"]) (SAMPLE_VALUES !! "country")) k)
    (fun v => exists xs, v = PList xs /\ (2 <= length xs <= 4)%nat /\ NoDup xs /\
                         forall x, x ∈ xs -> x ∈ PStr <$> COUNTRIES).
Proof.
  eapply returns_bind; [by apply (returns_randint 2 4)|]. cbn beta. intros k Hk.
  eapply returns_fmap.
  - apply returns_sample. change (0 <= k <= 7). lia.
  - cbn beta. intros xs [Hlen Hsub]. exists xs. split; [done|]. split; [lia|].
    change (xs ⊆+ PStr <$> COUNTRIES) in Hsub. split.
    + eapply submseteq_NoDup; [done|apply NoDup_countries].
    + intros x Hx. eapply elem_of_submseteq; eauto.
Qed.

Lemma returns_between_value :
  returns (min_val ← py_randint 100 5000;
           delta ← py_randint 1000 5000;
           let max_val := min_val + delta in
           mret (PList [PInt min_val; PInt max_val]))
    (fun v => exists lo delta, v = PList [PInt lo; PInt (lo + delta)] /\
                               100 <= lo <= 5000 /\ 1000 <= delta <= 5000).
Proof.
  eapply returns_bind; [by apply (returns_randint 100 5000)|]. cbn beta. intros lo Hlo.
  eapply returns_bind; [by apply (returns_randint 1000 5000)|]. cbn beta. intros d Hd.
  apply returns_ret. by exists lo, d.
Qed.

Lemma returns_than_value :
  returns (PInt <$> py_randint 100 10000)
    (fun v => exists n, v = PInt n /\ 100 <= n <= 10000).
Proof.
  eapply returns_fmap; [by apply (returns_randint 100 10000)|].
  cbn beta. intros n Hn. by exists n.
Qed.

Lemma returns_scalar_value (fld : string) :
  returns (if (Str.endswith fld "_enabled" || Str.endswith fld "mfa_enabled")%bool
           then PBool <$> py_choice [true; false]
           else py_choice
                  (default (PStr <$> ["ACTIVE"; "PENDING"]) (SAMPLE_VALUES !! "status")))
    (fun v => (exists b, v = PBool b) \/ (exists st, v = PStr st /\ st ∈ STATUSES)).
Proof.
  destruct (Str.endswith fld "_enabled" || Str.endswith fld "mfa_enabled")%bool.
  - eapply returns_fmap; [by apply (returns_choice [true; false])|].
    cbn beta. intros b _. left. by exists b.
  - eapply returns_mono; [apply returns_choice; by vm_compute|].
    cbn beta. intros v Hv. right.
    change (v ∈ PStr <$> STATUSES) in Hv.
    destruct (proj1 (list_elem_of_fmap _ _ _) Hv) as (st & Heq & Hst). by exists st.
Qed.

Lemma generate_condition_spec (fields : list string) :
  fields <> [] -> returns (generate_condition fields) (condition_ok fields).
Proof.
  intros Hf. unfold generate_condition.
  eapply returns_bind; [by apply returns_choice|]. cbn beta. intros fld Hfld.
  eapply returns_bind; [by apply (returns_choice ALL_OPERATORS)|]. cbn beta.
  intros op Hop.
  unfold ALL_OPERATORS, VECTORIZABLE_OPERATORS, NON_VECTORIZABLE_OPERATORS in Hop.
  cbn [app] in Hop.
  repeat (apply elem_of_cons in Hop as [->|Hop]); [..|by apply elem_of_nil in Hop];
    repeat eval_if;
    (eapply returns_bind;
     [ first [ apply returns_scalar_value | apply returns_set_value
             | apply returns_than_value | apply returns_between_value ] |]);
    cbn beta; intros v Hv; apply returns_ret; (split; [done|]); unfold value_ok;
    cbn [operator value].
  - (* EQUAL_TO *) do 3 right. split; [elem_tac|done].
  - (* NOT_EQUAL_TO *) do 3 right. split; [elem_tac|done].
  - (* IS_ANY_OF *) left. split; [elem_tac|done].
  - (* IS_NONE_OF *) left. split; [elem_tac|done].
  - (* GREATER_THAN *) do 2 right. left. split; [elem_tac|done].
  - (* LESS_THAN *) do 2 right. left. split; [elem_tac|done].
  - (* BETWEEN *) right. left. done.
Qed.

Lemma family_fields_total (family : string) :
  family ∈ FAMILIES ->
  exists fields, FAMILY_FIELDS !! family = Some fields /\ fields <> [].
Proof.
  intros Hf. unfold FAMILIES in Hf.
  repeat (apply elem_of_cons in Hf as [->|Hf]); [..|by apply elem_of_nil in Hf];
    (eexists; split; [by vm_compute|done]).
Qed.

Lemma generate_rule_spec (rule_num : Z) (family : string) (fields : list string)
    (is_duplicate is_invalid : bool) :
  FAMILY_FIELDS !! family = Some fields -> fields <> [] ->
  returns (generate_rule rule_num family is_duplicate is_invalid)
          (generated_ok rule_num family fields is_duplicate is_invalid).
Proof.
  intros Hff Hne. unfold generate_rule.
  eapply (returns_bind _ _ (fun code => exists num, code = rule_code_of family num /\
     if is_duplicate
     then exists offset, 100 <= offset <= 500 /\ num = Z.max 1 (rule_num - offset)
     else num = rule_num)).
  { destruct is_duplicate.
    - eapply returns_bind; [by apply (returns_randint 100 500)|]. cbn beta. intros off Hoff.
      apply returns_ret. eexists. split; [done|]. by exists off.
    - apply returns_ret. by eexists. }
  intros code Hcode.
  eapply returns_bind; [by apply returns_getitem|]. cbn beta. intros ? ->.
  eapply returns_bind; [by apply (returns_randint 1 4)|]. cbn beta. intros k Hk.
  eapply returns_bind.
  { apply returns_repeatM, generate_condition_spec, Hne. }
  intros cs [Hlen Hcs].
  eapply returns_bind; [by apply (returns_randint 1 1000)|]. cbn beta. intros prio Hprio.
  eapply returns_bind; [by apply (returns_choice [true; true; true; false])|].
  intros en _.
  assert (base_rule_ok rule_num family fields is_duplicate
            (Rule (Some code) (Some (description_of family rule_num)) (Some cs)
                  prio en (rule_tags rule_num family))) as Hbase.
  { repeat split; cbn; try done; try lia.
    - destruct Hcode as (num & -> & Hnum). by exists num.
    - exists cs. repeat split; [lia..|done]. }
  destruct is_invalid.
  - eapply returns_bind; [by apply (returns_choice INVALID_TYPES)|]. cbn beta. intros t Ht.
    apply returns_ret. eexists. split; [exact Hbase|]. by exists t.
  - apply returns_ret. eexists. split; [exact Hbase|done].
Qed.

Lemma families_lookup (i : Z) :
  0 <= i ->
  exists family, FAMILIES !! Z.to_nat (i `mod` Z.of_nat (length FAMILIES)) = Some family
                 /\ family ∈ FAMILIES.
Proof.
  intros Hi. change (Z.of_nat (length FAMILIES)) with 10.
  pose proof (Z.mod_pos_bound i 10 ltac:(lia)) as Hb.
  destruct (lookup_lt_is_Some_2 FAMILIES (Z.to_nat (i `mod` 10))) as [fam Hfam].
  { change (length FAMILIES) with 10%nat. lia. }
  exists fam. split; [done|]. by eapply list_elem_of_lookup_2.
Qed.

Lemma gen_loop_spec (is_duplicate is_invalid : bool) (n : nat) :
  forall (i0 : Z) (rules : list rule) (rule_num : Z), 0 <= i0 ->
  returns (gen_loop (seqZ i0 (Z.of_nat n)) is_duplicate is_invalid rules rule_num)
    (fun out => out.2 = rule_num + Z.of_nat n /\
       exists batch, out.1 = (rules ++ batch)%list /\ length batch = n /\
         forall (k : nat) r, batch !! k = Some r ->
           slot_ok is_duplicate is_invalid (i0 + Z.of_nat k) (rule_num + Z.of_nat k) r).
Proof.
  induction n as [|n IH]; intros i0 rules rule_num Hi0.
  - cbn. apply returns_ret. cbn. split; [lia|]. exists []. rewrite app_nil_r.
    repeat split. intros k r Hk. by rewrite lookup_nil in Hk.
  - rewrite seqZ_cons by lia. cbn [gen_loop].
    destruct (families_lookup i0 Hi0) as (fam & Hfam & Hin).
    destruct (family_fields_total fam Hin) as (fields & Hff & Hne).
    eapply returns_bind; [by apply returns_index|]. cbn beta. intros ? ->.
    eapply returns_bind; [by apply generate_rule_spec|]. cbn beta. intros r Hr.
    replace (Z.pred (Z.of_nat (S n))) with (Z.of_nat n) by lia.
    eapply returns_mono; [apply (IH (Z.succ i0)); lia|].
    intros [rules' rn'] (Hrn & batch & Hrules & Hlen & Hbatch). cbn [fst snd] in *.
    split; [lia|]. exists (r :: batch).
    split; [by rewrite Hrules, <-app_assoc|]. split; [cbn; lia|].
    intros [|k] r' Hk; cbn in Hk.
    + injection Hk as <-. exists fam, fields.
      rewrite !Z.add_0_r. change (Z.of_nat (length FAMILIES)) with 10 in Hfam. done.
    + specialize (Hbatch k r' Hk).
      by replace (i0 + Z.of_nat (S k)) with (Z.succ i0 + Z.of_nat k) by lia;
         replace (rule_num + Z.of_nat (S k)) with (rule_num + 1 + Z.of_nat k) by lia.
Qed.

Lemma gen_loop_range (is_duplicate is_invalid : bool) (n : Z) (rules : list rule)
    (rule_num : Z) :
  returns (gen_loop (range n) is_duplicate is_invalid rules rule_num)
    (fun out => out.2 = rule_num + Z.max 0 n /\
       exists batch, out.1 = (rules ++ batch)%list /\
                     batch_ok is_duplicate is_invalid rule_num n batch).
Proof.
  unfold range.
  replace (seqZ 0 n) with (seqZ 0 (Z.of_nat (Z.to_nat n))).
  2:{ destruct (decide (0 <= n)); [by rewrite Z2Nat.id|].
      rewrite !seqZ_nil; [done|lia..]. }
  eapply returns_mono; [by apply gen_loop_spec|].
  intros [rules' rn'] (Hrn & batch & Hrules & Hlen & Hbatch). cbn [fst snd] in *.
  split; [lia|]. exists batch. split; [done|]. split; [done|].
  intros k r Hk. specialize (Hbatch k r Hk). by rewrite Z.add_0_l in Hbatch.
Qed.

Lemma generate_unshuffled_spec (num_valid num_duplicates num_invalid : Z) :
  returns (generate_unshuffled num_valid num_duplicates num_invalid)
    (fun rules => exists valid duplicate invalid,
       rules = (valid ++ duplicate ++ invalid)%list /\
       partitions_ok num_valid num_duplicates num_invalid valid duplicate invalid).
Proof.
  unfold generate_unshuffled.
  eapply returns_bind; [apply gen_loop_range|]. cbn beta.
  intros [rules1 rn1]. cbn [fst snd]. intros (-> & vs & -> & Hvs).
  eapply returns_bind; [apply gen_loop_range|]. cbn beta.
  intros [rules2 rn2]. cbn [fst snd]. intros (-> & ds & -> & Hds).
  eapply returns_bind; [apply gen_loop_range|]. cbn beta.
  intros [rules3 rn3]. cbn [fst snd]. intros (-> & ivs & -> & Hivs).
  apply returns_ret. exists vs, ds, ivs.
  split; [by rewrite app_nil_l, <-app_assoc|]. done.
Qed.

Lemma generate_rules_spec (num_valid num_duplicates num_invalid : Z) :
  returns (generate_rules num_valid num_duplicates num_invalid)
    (fun rules => exists valid duplicate invalid,
       rules ≡ₚ (valid ++ duplicate ++ invalid)%list /\
       partitions_ok num_valid num_duplicates num_invalid valid duplicate invalid).
Proof.
  unfold generate_rules.
  eapply returns_bind; [apply generate_unshuffled_spec|].
  intros unshuffled (vs & ds & ivs & -> & Hok).
  eapply returns_mono; [apply returns_shuffle|].
  intros rules Hperm. by exists vs, ds, ivs.
Qed.

Lemma slot_generated (is_duplicate is_invalid : bool) (i rule_num : Z) (r : rule) :
  slot_ok is_duplicate is_invalid i rule_num r -> generated r.
Proof.
  intros (fam & fields & Hfam & Hff & _ & Hok).
  exists rule_num, fam, fields, is_duplicate, is_invalid.
  split; [by eapply list_elem_of_lookup_2|done].
Qed.

Lemma batch_generated (is_duplicate is_invalid : bool) (start n : Z) (batch : list rule) :
  batch_ok is_duplicate is_invalid start n batch -> Forall generated batch.
Proof.
  intros [_ Hb]. apply Forall_lookup. intros k r Hk.
  eapply slot_generated, Hb, Hk.
Qed.

Lemma generate_rules_generated (num_valid num_duplicates num_invalid : Z) :
  returns (generate_rules num_valid num_duplicates num_invalid) (Forall generated).
Proof.
  eapply returns_mono; [apply generate_rules_spec|]. cbn beta.
  intros rules (vs & ds & ivs & Hperm & Hv & Hd & Hi).
  rewrite Hperm, !Forall_app. repeat split; eapply batch_generated; eassumption.
Qed.

(** The corruption an invalid type applies. *)
Lemma corrupt_cases (t : string) (b : rule) :
  t ∈ INVALID_TYPES ->
  (t = "missing_rule_code" /\ corrupt t b = del_rule_code b)
  \/ (t = "missing_description" /\ corrupt t b = del_description b)
  \/ (t = "missing_conditions" /\ corrupt t b = del_conditions b)
  \/ (t = "empty_conditions" /\ corrupt t b = set_conditions [] b)
  \/ (t = "invalid_priority_high" /\ corrupt t b = set_priority 1500 b)
  \/ (t = "invalid_priority_low" /\ corrupt t b = set_priority (-10) b)
  \/ (t = "invalid_priority_negative" /\ corrupt t b = set_priority (-100) b).
Proof.
  intros Ht. unfold INVALID_TYPES in Ht.
  repeat (apply elem_of_cons in Ht as [->|Ht]); [..|by apply elem_of_nil in Ht];
    unfold corrupt; repeat eval_if; tauto.
Qed.

Lemma generated_conditions (r : rule) (cs : list condition) :
  generated r -> conditions r = Some cs -> cs <> [] ->
  (1 <= length cs <= 4)%nat /\ exists fields, Forall (condition_ok fields) cs.
Proof.
  intros (n & fam & fields & dup & inv & _ & _ & base & Hbase & Hr) Hcs Hne.
  destruct Hbase as (_ & _ & (cs0 & Hcs0 & Hlen & Hall) & _).
  assert (conditions r = conditions base \/ conditions r = None
          \/ conditions r = Some []) as Hc.
  { destruct inv; [|by subst; left].
    destruct Hr as (t & Ht & ->).
    destruct (corrupt_cases t base Ht) as [H|[H|[H|[H|[H|[H|H]]]]]];
      destruct H as [_ ->]; cbn; auto. }
  destruct Hc as [Hc|[Hc|Hc]]; rewrite Hc in Hcs; [|done|congruence].
  rewrite Hcs0 in Hcs. injection Hcs as <-. eauto.
Qed.

End GenerateRule.

(** ** The shapes of conditions *)

Section Conditions.
Context {R : RandomGen}.

Ltac split_elem :=
  repeat match goal with
    | H : _ ∈ _ :: _ |- _ => apply elem_of_cons in H as [H|H]
    | H : _ ∈ [] |- _ => by apply elem_of_nil in H
    end.

Lemma value_ok_shape (c : condition) : value_ok c -> shape_ok c.
Proof.
  intros [(Hop & xs & Hv & Hlen & _)|[(Hop & lo & d & Hv & Hlo & Hd)
         |[(Hop & n & Hv & _)|(Hop & _)]]]; split; intros Hop'.
  - split_elem; congruence.
  - by exists xs.
  - exists lo, (lo + d). split; [done|lia].
  - split_elem; congruence.
  - split_elem; congruence.
  - split_elem; congruence.
  - split_elem; congruence.
  - split_elem; congruence.
Qed.

Lemma value_ok_strict_shape (c : condition) : value_ok c -> strict_shape_ok c.
Proof.
  intros [(Hop & xs & Hv & Hlen & Hnd & Hin)|[(Hop & lo & d & Hv & Hlo & Hd)
         |[(Hop & n & Hv & _)|(Hop & _)]]]; split; intros Hop'.
  - exists xs. repeat split; [done..|]. intros x Hx.
    destruct (proj1 (list_elem_of_fmap _ _ _) (Hin x Hx)) as (code & -> & Hcode).
    by exists code.
  - split_elem; congruence.
  - split_elem; congruence.
  - exists lo, (lo + d). split; [done|lia].
  - split_elem; congruence.
  - split_elem; congruence.
  - split_elem; congruence.
  - split_elem; congruence.
Qed.

(** C3: in every emitted record whose [conditions] are present and not
    empty, there are one to four conditions; a BETWEEN condition has a
    value of exactly two integers, the first at most the second, and an
    IS_ANY_OF or IS_NONE_OF condition a value list of two to four
    entries. *)
Theorem emitted_conditions_shape (num_valid num_duplicates num_invalid : Z) :
  returns (generate_rules num_valid num_duplicates num_invalid)
    (Forall (fun r => forall cs, conditions r = Some cs -> cs <> [] ->
       (1 <= length cs <= 4)%nat /\ Forall shape_ok cs)).
Proof.
  eapply returns_mono; [apply generate_rules_generated|]. cbn beta.
  intros rules Hgen. eapply Forall_impl; [exact Hgen|]. cbn beta.
  intros r Hr cs Hcs Hne.
  destruct (generated_conditions r cs Hr Hcs Hne) as (Hlen & fields & Hall).
  split; [done|]. eapply Forall_impl; [exact Hall|].
  intros c [_ Hc]. by apply value_ok_shape.
Qed.

(** C9: in every emitted record, the value list of an IS_ANY_OF or
    IS_NONE_OF condition has pairwise distinct elements, each one of the
    seven country codes, and the two entries of a BETWEEN value differ by
    1000 to 5000, so that the first is strictly below the second. *)
Theorem emitted_conditions_strict_shape (num_valid num_duplicates num_invalid : Z) :
  returns (generate_rules num_valid num_duplicates num_invalid)
    (Forall (fun r => forall cs, conditions r = Some cs ->
       Forall strict_shape_ok cs)).
Proof.
  eapply returns_mono; [apply generate_rules_generated|]. cbn beta.
  intros rules Hgen. eapply Forall_impl; [exact Hgen|]. cbn beta.
  intros r Hr cs Hcs.
  destruct (decide (cs = [])) as [->|Hne]; [by constructor|].
  destruct (generated_conditions r cs Hr Hcs Hne) as (Hlen & fields & Hall).
  eapply Forall_impl; [exact Hall|].
  intros c [_ Hc]. by apply value_ok_strict_shape.
Qed.

End Conditions.

(** ** The invalid partition *)

Section Invalid.
Context {R : RandomGen}.




End Invalid.

(** ** Tags *)

Section Tags.
Context {R : RandomGen}.

Lemma corrupt_tags (t : string) (b : rule) : tags (corrupt t b) = tags b.
Proof. unfold corrupt. by repeat case_bool_decide. Qed.

Lemma family_not_marker (family : string) :
  family ∈ FAMILIES ->
  family <> "production-critical" /\ family <> "high-priority"
  /\ family <> "vectorized".
Proof.
  intros Hf. unfold FAMILIES in Hf.
  repeat (apply elem_of_cons in Hf as [->|Hf]); [..|by apply elem_of_nil in Hf];
    by repeat split.
Qed.

Lemma rule_tags_spec (rule_num : Z) (family : string) :
  family ∈ FAMILIES ->
  family ∈ rule_tags rule_num family
  /\ "batch_" +:+ Str.of_int (rule_num `div` 100) ∈ rule_tags rule_num family
  /\ ("production-critical" ∈ rule_tags rule_num family <-> rule_num `mod` 10 = 0)
  /\ ("high-priority" ∈ rule_tags rule_num family <-> rule_num `mod` 10 = 0)
  /\ ("vectorized" ∈ rule_tags rule_num family <-> rule_num `mod` 7 = 0).
Proof.
  intros Hf. destruct (family_not_marker family Hf) as (Hpc & Hhp & Hv).
  unfold rule_tags.
  repeat case_bool_decide; rewrite ?elem_of_app, !elem_of_cons, !elem_of_nil;
    change ("batch_" +:+ ?x) with (String "b" ("atch_" +:+ x));
    repeat split; try tauto; try (intros; exfalso; intuition congruence);
    try (intros _; tauto).
Qed.

(** C7: the tags of every generated record hold its family name and the
    bucket tag of its rule number; they hold "production-critical" and
    "high-priority" exactly when the rule number is a multiple of 10, and
    "vectorized" exactly when it is a multiple of 7. *)
Theorem generated_tags (rule_num : Z) (family : string)
    (is_duplicate is_invalid : bool) :
  family ∈ FAMILIES ->
  returns (generate_rule rule_num family is_duplicate is_invalid)
    (fun r =>
       family ∈ tags r
       /\ "batch_" +:+ Str.of_int (rule_num `div` 100) ∈ tags r
       /\ ("production-critical" ∈ tags r <-> rule_num `mod` 10 = 0)
       /\ ("high-priority" ∈ tags r <-> rule_num `mod` 10 = 0)
       /\ ("vectorized" ∈ tags r <-> rule_num `mod` 7 = 0)).
Proof.
  intros Hf. destruct (family_fields_total family Hf) as (fields & Hff & Hne).
  eapply returns_mono; [by apply generate_rule_spec|]. cbn beta.
  intros r (base & Hbase & Hr).
  assert (tags r = rule_tags rule_num family) as ->.
  { destruct Hbase as (_ & _ & _ & _ & Htags).
    destruct is_invalid; [|by subst].
    destruct Hr as (t & _ & ->). by rewrite corrupt_tags. }
  by apply rule_tags_spec.
Qed.

End Tags.


(** ** Binary64 products: the partition sizes are the exact quotients *)

(** *** Digits *)

Lemma digits2_pos_bounds (p : positive) :
  2 ^ (Z.pos (digits2_pos p) - 1) <= Z.pos p < 2 ^ Z.pos (digits2_pos p).
Proof.
  induction p as [p IH|p IH|]; cbn [digits2_pos]; [| |by compute].
  all: rewrite Pos2Z.inj_succ;
    replace (Z.succ (Z.pos (digits2_pos p)) - 1)
      with (Z.succ (Z.pos (digits2_pos p) - 1)) by lia;
    rewrite !Z.pow_succ_r by lia;
    generalize dependent (2 ^ (Z.pos (digits2_pos p) - 1));
    generalize dependent (2 ^ Z.pos (digits2_pos p)); lia.
Qed.

Lemma digits2_pos_unique (p : positive) (d : Z) :
  2 ^ (d - 1) <= Z.pos p < 2 ^ d -> Z.pos (digits2_pos p) = d.
Proof.
  intros [Hlo Hhi]. pose proof (digits2_pos_bounds p) as [Hlo' Hhi'].
  assert (0 < d) as Hd.
  { destruct (decide (0 < d)) as [|Hn]; [done|].
    rewrite Z.pow_neg_r in Hlo by lia.
    assert (d = 0) as -> by (destruct (decide (d = 0)); [done|rewrite Z.pow_neg_r in Hhi; lia]).
    cbn in Hhi. lia. }
  destruct (Z.lt_trichotomy (Z.pos (digits2_pos p)) d) as [Hlt|[Heq|Hgt]]; [|done|].
  - assert (2 ^ Z.pos (digits2_pos p) <= 2 ^ (d - 1)) by (apply Z.pow_le_mono_r; lia). lia.
  - assert (2 ^ d <= 2 ^ (Z.pos (digits2_pos p) - 1)) by (apply Z.pow_le_mono_r; lia). lia.
Qed.

(** *** Shifting right *)

Lemma iter_pos_nat {A : Type} (f : A -> A) (p : positive) (x : A) :
  SpecFloat.iter_pos f p x = Nat.iter (Pos.to_nat p) f x.
Proof.
  revert x. induction p as [p IH|p IH|]; intros x; cbn [SpecFloat.iter_pos]; [| |done].
  - rewrite !IH, Pos2Nat.inj_xI, <-Nat.iter_add, <-Nat.iter_succ_r. f_equal. lia.
  - rewrite !IH, Pos2Nat.inj_xO, <-Nat.iter_add. f_equal. lia.
Qed.

(** What [j] right shifts of [P] leave: the quotient, and where the
    remainder lies in a step of [2^j], below, at or above its middle. *)
Definition shr_inv (P : Z) (j : nat) (mrs : shr_record) : Prop :=
  0 <= shr_m mrs /\
  exists rem, P = shr_m mrs * 2 ^ Z.of_nat j + rem /\
    match shr_r mrs, shr_s mrs with
    | false, false => rem = 0
    | false, true => 0 < rem /\ 2 * rem < 2 ^ Z.of_nat j
    | true, false => 2 * rem = 2 ^ Z.of_nat j
    | true, true => 2 ^ Z.of_nat j < 2 * rem /\ rem < 2 ^ Z.of_nat j
    end.

Lemma shr_1_inv (P : Z) (j : nat) (mrs : shr_record) :
  shr_inv P j mrs -> shr_inv P (S j) (shr_1 mrs).
Proof.
  destruct mrs as [m r s]. intros (Hm & rem & HP & Hrem). cbn [shr_m shr_r shr_s] in *.
  unfold shr_inv. rewrite Nat2Z.inj_succ, Z.pow_succ_r by lia.
  pose proof (Z.pow_pos_nonneg 2 (Z.of_nat j) ltac:(lia) ltac:(lia)) as HX.
  set (X := 2 ^ Z.of_nat j) in *. clearbody X.
  unfold shr_1.
  destruct m as [|[p|p|]|p]; [| | | |lia]; cbn [shr_m shr_r shr_s];
    (split; [lia|]);
    [ exists rem | exists (X + rem) | exists rem | exists (X + rem) ];
    destruct r, s; cbn [orb]; lia.
Qed.

Lemma shr_iter_inv (P : Z) (j : nat) :
  0 <= P -> shr_inv P j (Nat.iter j shr_1 (Build_shr_record P false false)).
Proof.
  intros HP. induction j as [|j IH].
  - cbn. split; [done|]. exists 0. cbn. lia.
  - rewrite Nat.iter_succ. by apply shr_1_inv.
Qed.

(** Rounding to nearest even after [j] shifts is within half a step. *)
Lemma round_nearest_even_inv (P : Z) (j : nat) (mrs : shr_record) :
  shr_inv P j mrs ->
  let m := round_nearest_even (shr_m mrs) (loc_of_shr_record mrs) in
  shr_m mrs <= m <= shr_m mrs + 1 /\
  2 * Z.abs (m * 2 ^ Z.of_nat j - P) <= 2 ^ Z.of_nat j.
Proof.
  destruct mrs as [m r s]. intros (Hm & rem & HP & Hrem). cbn [shr_m shr_r shr_s] in *.
  pose proof (Z.pow_pos_nonneg 2 (Z.of_nat j) ltac:(lia) ltac:(lia)) as HX.
  set (X := 2 ^ Z.of_nat j) in *. clearbody X.
  destruct r, s; cbn [loc_of_shr_record round_nearest_even]; try destruct (Z.even m); lia.
Qed.

(** *** Rounding a mantissa to 53 bits *)

Lemma binary_round_aux_exact (s : bool) (m : positive) (e : Z) :
  Z.pos (digits2_pos m) = 53 -> -1074 <= e <= 971 ->
  binary_round_aux prec64 emax64 s (Z.pos m) e loc_Exact = S754_finite s m e.
Proof.
  intros Hd He. unfold binary_round_aux, shr_fexp, fexp, emin, prec64, emax64.
  cbn [Zdigits2 shr_record_of_loc]. rewrite Hd.
  replace (Z.max (53 + e - 53) (3 - 1024 - 53) - e) with 0 by lia.
  cbn [shr shr_m loc_of_shr_record round_nearest_even Zdigits2 shr_record_of_loc].
  rewrite Hd.
  replace (Z.max (53 + e - 53) (3 - 1024 - 53) - e) with 0 by lia.
  cbn [shr shr_m]. by rewrite (proj2 (Z.leb_le e (1024 - 53))) by lia.
Qed.

Lemma binary_round_aux_shift (s : bool) (P : positive) (e : Z) (k : positive) :
  Z.pos (digits2_pos P) = 53 + Z.pos k ->
  -1074 <= e + Z.pos k -> e + Z.pos k + 1 <= 971 ->
  exists m3 e3,
    binary_round_aux prec64 emax64 s (Z.pos P) e loc_Exact = S754_finite s m3 e3 /\
    (e3 = e + Z.pos k \/ e3 = e + Z.pos k + 1) /\
    (exists a, Z.pos m3 * 2 ^ (e3 - e) = a * 2 ^ Z.pos k) /\
    2 * Z.abs (Z.pos m3 * 2 ^ (e3 - e) - Z.pos P) <= 2 ^ Z.pos k.
Proof.
  intros Hd Hlo Hhi.
  pose proof (digits2_pos_bounds P) as HP. rewrite Hd in HP.
  replace (53 + Z.pos k - 1) with (52 + Z.pos k) in HP by lia.
  rewrite !Z.pow_add_r in HP by lia.
  unfold binary_round_aux.
  assert (shr_fexp prec64 emax64 (Z.pos P) e loc_Exact
          = (Nat.iter (Pos.to_nat k) shr_1 (Build_shr_record (Z.pos P) false false),
             e + Z.pos k)) as ->.
  { unfold shr_fexp, fexp, emin, prec64, emax64. cbn [Zdigits2 shr_record_of_loc].
    rewrite Hd.
    replace (Z.max (53 + Z.pos k + e - 53) (3 - 1024 - 53) - e) with (Z.pos k) by lia.
    cbn [shr]. by rewrite iter_pos_nat. }
  pose proof (shr_iter_inv (Z.pos P) (Pos.to_nat k) ltac:(lia)) as Hinv.
  pose proof (round_nearest_even_inv _ _ _ Hinv) as Hround. cbn zeta in Hround.
  destruct Hinv as (Hm1 & rem & Hrem & Hcase).
  rewrite positive_nat_Z in *.
  pose proof (Z.pow_pos_nonneg 2 (Z.pos k) ltac:(lia) ltac:(lia)) as HX.
  set (mrs := Nat.iter (Pos.to_nat k) shr_1 _) in *. clearbody mrs.
  set (X := 2 ^ Z.pos k) in *.
  set (m2 := round_nearest_even (shr_m mrs) (loc_of_shr_record mrs)) in *. clearbody m2.
  assert (0 <= rem < X) as Hrem_b by (destruct (shr_r mrs), (shr_s mrs); lia).
  assert (2 ^ 52 <= shr_m mrs < 2 ^ 53) as Hm1_b by (clearbody X; nia).
  destruct (decide (m2 = 2 ^ 53)) as [->|Hne].
  - exists (2 ^ 52)%positive, (e + Z.pos k + 1).
    split.
    { unfold shr_fexp, fexp, emin, prec64, emax64.
      change (Zdigits2 (2 ^ 53)) with 54.
      replace (Z.max (54 + (e + Z.pos k) - 53) (3 - 1024 - 53) - (e + Z.pos k)) with 1 by lia.
      cbn [shr shr_record_of_loc SpecFloat.iter_pos]. change (2 ^ 53) with (Z.pos (2 ^ 52)~0).
      cbn [shr_1 shr_m orb].
      by rewrite (proj2 (Z.leb_le (e + Z.pos k + 1) (1024 - 53))) by lia. }
    split; [by right|].
    replace (e + Z.pos k + 1 - e) with (Z.pos k + 1) by lia.
    rewrite Z.pow_add_r by lia. fold X. split.
    + exists (2 ^ 53). change (2 ^ 1) with 2. change (Z.pos (2 ^ 52)) with (2 ^ 52). lia.
    + change (2 ^ 1) with 2. change (Z.pos (2 ^ 52)) with (2 ^ 52).
      replace (2 ^ 52 * (X * 2)) with (2 ^ 53 * X) by lia. lia.
  - destruct m2 as [|p2|p2]; [lia| |lia].
    exists p2, (e + Z.pos k).
    split.
    { assert (Z.pos (digits2_pos p2) = 53) as Hd2 by (apply digits2_pos_unique; lia).
      unfold shr_fexp, fexp, emin, prec64, emax64. cbn [Zdigits2 shr_record_of_loc].
      rewrite Hd2.
      replace (Z.max (53 + (e + Z.pos k) - 53) (3 - 1024 - 53) - (e + Z.pos k))
        with 0 by lia.
      cbn [shr shr_m]. by rewrite (proj2 (Z.leb_le (e + Z.pos k) (1024 - 53))) by lia. }
    split; [by left|].
    replace (e + Z.pos k - e) with (Z.pos k) by lia. fold X.
    split; [by exists (Z.pos p2)|lia].
Qed.

(** *** The conversion of an integer below [2^53] is exact *)

Lemma pos_iter_xO (p q : positive) : Z.pos (Pos.iter xO p q) = Z.pos p * 2 ^ Z.pos q.
Proof.
  induction q as [|q IH] using Pos.peano_ind.
  - cbn [Pos.iter]. lia.
  - rewrite Pos.iter_succ, Pos2Z.inj_xO, IH, Pos2Z.inj_succ, Z.pow_succ_r by lia. lia.
Qed.

Lemma binary_round_exact (s : bool) (p : positive) :
  Z.pos p < 2 ^ 53 ->
  exists mz ez U,
    binary_round prec64 emax64 s p 0 = S754_finite s mz ez /\
    Z.pos mz = Z.pos p * U /\ U = 2 ^ (- ez) /\ -52 <= ez <= 0 /\
    2 ^ 52 <= Z.pos mz < 2 ^ 53.
Proof.
  intros Hp. pose proof (digits2_pos_bounds p) as Hb.
  set (d := Z.pos (digits2_pos p)) in *.
  assert (1 <= d <= 53) as Hd.
  { split; [lia|]. destruct (decide (d <= 53)) as [|Hn]; [done|].
    assert (2 ^ 53 <= 2 ^ (d - 1)) by (apply Z.pow_le_mono_r; lia). lia. }
  unfold binary_round, shl_align, fexp, emin, prec64, emax64. fold d.
  replace (Z.max (d + 0 - 53) (3 - 1024 - 53) - 0) with (d - 53) by lia.
  destruct (d - 53) as [|q|q] eqn:Hq; [|lia|].
  - assert (d = 53) as Hd53 by lia. rewrite Hd53 in Hb.
    exists p, 0, 1. change (53 - 1) with 52 in Hb.
    rewrite binary_round_aux_exact; [|done|lia].
    repeat split; lia.
  - assert (Z.pos q = 53 - d) as Hq' by lia.
    assert (Z.pos (Pos.iter xO p q) = Z.pos p * 2 ^ (53 - d)) as Hmz
      by (rewrite pos_iter_xO; congruence).
    assert (2 ^ 52 <= Z.pos (Pos.iter xO p q) < 2 ^ 53) as Hmz_b.
    { rewrite Hmz.
      replace (2 ^ 52) with (2 ^ (d - 1) * 2 ^ (53 - d))
        by (rewrite <-Z.pow_add_r by lia; f_equal; lia).
      replace (2 ^ 53) with (2 ^ d * 2 ^ (53 - d))
        by (rewrite <-Z.pow_add_r by lia; f_equal; lia).
      pose proof (Z.pow_pos_nonneg 2 (53 - d) ltac:(lia) ltac:(lia)). nia. }
    exists (Pos.iter xO p q), (Z.max (d + 0 - 53) (3 - 1024 - 53)), (2 ^ (53 - d)).
    replace (Z.max (d + 0 - 53) (3 - 1024 - 53)) with (d - 53) by lia.
    rewrite binary_round_aux_exact; [|by apply digits2_pos_unique|lia].
    repeat split; try lia. f_equal. lia.
Qed.

(** *** The product of two doubles *)

Lemma SFmul_round (s : bool) (mz M : positive) (ez ec : Z) :
  2 ^ 52 <= Z.pos mz < 2 ^ 53 -> 2 ^ 52 <= Z.pos M < 2 ^ 53 ->
  -1000 <= ez + ec <= 900 ->
  exists m3 e3 k,
    SFmul prec64 emax64 (S754_finite s mz ez) (S754_finite false M ec)
    = S754_finite s m3 e3 /\
    ((k = 52 /\ Z.pos mz * Z.pos M < 2 ^ 105)
     \/ (k = 53 /\ 2 ^ 105 <= Z.pos mz * Z.pos M)) /\
    (e3 = ez + ec + k \/ e3 = ez + ec + k + 1) /\
    (exists a, Z.pos m3 * 2 ^ (e3 - (ez + ec)) = a * 2 ^ k) /\
    2 * Z.abs (Z.pos m3 * 2 ^ (e3 - (ez + ec)) - Z.pos mz * Z.pos M) <= 2 ^ k.
Proof.
  intros Hmz HM He. cbn [SFmul]. rewrite xorb_false_r.
  destruct (decide (Z.pos mz * Z.pos M < 2 ^ 105)) as [Hlt|Hge].
  - destruct (binary_round_aux_shift s (mz * M) (ez + ec) 52) as (m3 & e3 & Heq & He3 & Ha & Hr).
    { apply digits2_pos_unique. rewrite Pos2Z.inj_mul. change (53 + 52 - 1) with 104.
      change (53 + 52) with 105. split; [nia|done]. }
    { lia. } { lia. }
    exists m3, e3, 52. rewrite Pos2Z.inj_mul in Hr. auto 10.
  - destruct (binary_round_aux_shift s (mz * M) (ez + ec) 53) as (m3 & e3 & Heq & He3 & Ha & Hr).
    { apply digits2_pos_unique. rewrite Pos2Z.inj_mul. change (53 + 53 - 1) with 105.
      change (53 + 53) with 106. split; [lia|nia]. }
    { lia. } { lia. }
    exists m3, e3, 53. rewrite Pos2Z.inj_mul in Hr. split; [done|].
    split; [right; split; [done|lia]|]. auto.
Qed.

(** *** The two products of [generate_test_file] *)

Lemma int_mul_0_05_pos (s : bool) (p : positive) :
  Z.pos p < 2 ^ 52 ->
  int_of_float (SFmul prec64 emax64 (binary_round prec64 emax64 s p 0) float_0_05)
  = inr (cond_Zopp s (Z.pos p / 20)).
Proof.
  intros Hp.
  destruct (binary_round_exact s p ltac:(lia)) as (mz & ez & U & -> & Hmz & HU & Hez & Hmz_b).
  unfold float_0_05.
  destruct (SFmul_round s mz 0x1999999999999a ez (-57) Hmz_b ltac:(lia) ltac:(lia))
    as (m3 & e3 & k & -> & Hk & He3 & (a & Ha) & Hr).
  cbn [int_of_float]. do 2 f_equal.
  rewrite Z.shiftl_div_pow2 by lia.
  assert (2 <= U) as HU2.
  { destruct (decide (ez = 0)) as [->|Hne].
    - cbn in HU. subst U. lia.
    - subst U. change 2 with (2 ^ 1) at 1. apply Z.pow_le_mono_r; lia. }
  pose proof (Z.div_mod (Z.pos p) 20 ltac:(lia)) as Hdm.
  pose proof (Z.mod_pos_bound (Z.pos p) 20 ltac:(lia)) as Hmb.
  set (q := Z.pos p / 20) in *. set (r0 := Z.pos p mod 20) in *.
  assert (2 ^ (- e3) = U * 2 ^ (57 - (e3 - (ez + -57)))) as ->.
  { subst U. rewrite <-Z.pow_add_r by lia. f_equal. lia. }
  assert (Z.pos mz = 20 * (U * q) + U * r0) as Hmz' by nia.
  assert (0 <= U * r0 <= 19 * U) as HR0 by nia.
  assert (0 <= U * q) as HQ
    by (apply Z.mul_nonneg_nonneg; [lia|apply Z.div_pos; lia]).
  clear Hmz HU Hdm Hmb. symmetry.
  destruct Hk as [[-> Hlt]|[-> Hge]]; destruct He3 as [He3|He3];
    replace (e3 - (ez + -57)) with (e3 - ez + 57) in * by lia.
  - replace (e3 - ez + 57) with 52 in * by lia. cbn in Ha, Hr, Hlt |- *.
    apply Z.div_unique with (r := Z.pos m3 - 32 * (U * q)); lia.
  - replace (e3 - ez + 57) with 53 in * by lia. cbn in Ha, Hr, Hlt |- *.
    apply Z.div_unique with (r := Z.pos m3 - 16 * (U * q)); lia.
  - replace (e3 - ez + 57) with 53 in * by lia. cbn in Ha, Hr, Hge |- *.
    apply Z.div_unique with (r := Z.pos m3 - 16 * (U * q)); lia.
  - replace (e3 - ez + 57) with 54 in * by lia. cbn in Ha, Hr, Hge |- *.
    apply Z.div_unique with (r := Z.pos m3 - 8 * (U * q)); lia.
Qed.

Lemma int_mul_0_03_pos (s : bool) (p : positive) :
  Z.pos p < 2 ^ 52 ->
  int_of_float (SFmul prec64 emax64 (binary_round prec64 emax64 s p 0) float_0_03)
  = inr (cond_Zopp s (3 * Z.pos p / 100)).
Proof.
  intros Hp.
  destruct (binary_round_exact s p ltac:(lia)) as (mz & ez & U & -> & Hmz & HU & Hez & Hmz_b).
  unfold float_0_03.
  destruct (SFmul_round s mz 0x1eb851eb851eb8 ez (-58) Hmz_b ltac:(lia) ltac:(lia))
    as (m3 & e3 & k & -> & Hk & He3 & (a & Ha) & Hr).
  cbn [int_of_float]. do 2 f_equal.
  rewrite Z.shiftl_div_pow2 by lia.
  assert (2 <= U) as HU2.
  { destruct (decide (ez = 0)) as [->|Hne].
    - cbn in HU. subst U. lia.
    - subst U. change 2 with (2 ^ 1) at 1. apply Z.pow_le_mono_r; lia. }
  pose proof (Z.div_mod (3 * Z.pos p) 100 ltac:(lia)) as Hdm.
  pose proof (Z.mod_pos_bound (3 * Z.pos p) 100 ltac:(lia)) as Hmb.
  set (q := 3 * Z.pos p / 100) in *. set (r0 := (3 * Z.pos p) mod 100) in *.
  assert (2 ^ (- e3) = U * 2 ^ (58 - (e3 - (ez + -58)))) as ->.
  { subst U. rewrite <-Z.pow_add_r by lia. f_equal. lia. }
  assert (3 * Z.pos mz = 100 * (U * q) + U * r0) as Hmz' by nia.
  assert (0 <= U * r0 <= 99 * U) as HR0 by nia.
  assert (U * r0 = 0 \/ U <= U * r0) as HR0'.
  { destruct (decide (r0 = 0)) as [Hz|Hnz]; [left; rewrite Hz; lia|right].
    rewrite <-(Z.mul_1_r U) at 1. apply Z.mul_le_mono_nonneg_l; lia. }
  assert (0 <= U * q) as HQ
    by (apply Z.mul_nonneg_nonneg; [lia|apply Z.div_pos; lia]).
  clear Hmz HU Hdm Hmb. symmetry.
  destruct Hk as [[-> Hlt]|[-> Hge]]; destruct He3 as [He3|He3];
    replace (e3 - (ez + -58)) with (e3 - ez + 58) in * by lia.
  - replace (e3 - ez + 58) with 52 in * by lia. cbn in Ha, Hr, Hlt |- *.
    apply Z.div_unique with (r := Z.pos m3 - 64 * (U * q)); lia.
  - replace (e3 - ez + 58) with 53 in * by lia. cbn in Ha, Hr, Hlt |- *.
    apply Z.div_unique with (r := Z.pos m3 - 32 * (U * q)); lia.
  - replace (e3 - ez + 58) with 53 in * by lia. cbn in Ha, Hr, Hge |- *.
    apply Z.div_unique with (r := Z.pos m3 - 32 * (U * q)); lia.
  - replace (e3 - ez + 58) with 54 in * by lia. cbn in Ha, Hr, Hge |- *.
    apply Z.div_unique with (r := Z.pos m3 - 16 * (U * q)); lia.
Qed.

Lemma int_mul_0_05 (n : Z) :
  Z.abs n < 2 ^ 52 -> int_mul n float_0_05 = inr (n ÷ 20).
Proof.
  intros Hn. unfold int_mul, float_of_int. destruct n as [|p|p].
  - done.
  - cbn [binary_normalize].
    pose proof (int_mul_0_05_pos false p ltac:(lia)) as H.
    destruct (binary_round_exact false p ltac:(lia)) as (mz & ez & U & Heq & _).
    rewrite Heq in H |- *. rewrite H. cbn [cond_Zopp].
    by rewrite Z.quot_div_nonneg by lia.
  - cbn [binary_normalize].
    pose proof (int_mul_0_05_pos true p ltac:(lia)) as H.
    destruct (binary_round_exact true p ltac:(lia)) as (mz & ez & U & Heq & _).
    rewrite Heq in H |- *. rewrite H. cbn [cond_Zopp].
    change (Z.neg p) with (- Z.pos p).
    by rewrite Z.quot_opp_l, Z.quot_div_nonneg by lia.
Qed.

Lemma int_mul_0_03 (n : Z) :
  Z.abs n < 2 ^ 52 -> int_mul n float_0_03 = inr (3 * n ÷ 100).
Proof.
  intros Hn. unfold int_mul, float_of_int. destruct n as [|p|p].
  - done.
  - cbn [binary_normalize].
    pose proof (int_mul_0_03_pos false p ltac:(lia)) as H.
    destruct (binary_round_exact false p ltac:(lia)) as (mz & ez & U & Heq & _).
    rewrite Heq in H |- *. rewrite H. cbn [cond_Zopp].
    by rewrite Z.quot_div_nonneg by lia.
  - cbn [binary_normalize].
    pose proof (int_mul_0_03_pos true p ltac:(lia)) as H.
    destruct (binary_round_exact true p ltac:(lia)) as (mz & ez & U & Heq & _).
    rewrite Heq in H |- *. rewrite H. cbn [cond_Zopp].
    replace (3 * Z.neg p) with (- (3 * Z.pos p)) by lia.
    by rewrite Z.quot_opp_l, Z.quot_div_nonneg by lia.
Qed.

Lemma partition_sizes_exact (n : Z) :
  Z.abs n < 2 ^ 52 ->
  partition_sizes n = inr (n - n ÷ 20 - 3 * n ÷ 100, n ÷ 20, 3 * n ÷ 100).
Proof.
  intros Hn. unfold partition_sizes.
  by rewrite int_mul_0_05, int_mul_0_03.
Qed.

(** ** The partition sizes *)

(** C1: for a total of at least 1 and below [2^52], the sizes the
    generator computes are [floor(0.05 * total)] duplicates,
    [floor(0.03 * total)] invalid rules and the rest valid, and they sum to
    the total. *)
Theorem partition_sizes_floor (total_rules : Z) :
  1 <= total_rules < 2 ^ 52 ->
  exists num_valid num_duplicates num_invalid,
    partition_sizes total_rules = inr (num_valid, num_duplicates, num_invalid)
    /\ (num_valid, num_duplicates, num_invalid) = spec_partition_sizes total_rules
    /\ num_valid + num_duplicates + num_invalid = total_rules.
Proof.
  intros Hn. rewrite partition_sizes_exact by lia.
  do 3 eexists. split; [done|]. unfold spec_partition_sizes.
  rewrite !Z.quot_div_nonneg by lia.
  replace (5 * total_rules / 100) with (total_rules / 20)
    by (Z.div_mod_to_equations; lia).
  split; [done|lia].
Qed.

Lemma partition_sizes_100 :
  1 <= 100 < 2 ^ 52 /\ partition_sizes 100 = inr (92, 5, 3).
Proof.
  assert (1 <= 100 < 2 ^ 52) as H by (split; [lia|reflexivity]).
  split; [exact H|].
  destruct (partition_sizes_floor 100 H) as (v & d & i & -> & Heq & _).
  by rewrite Heq.
Defined.

(** At 6786547011014259, between [2^52] and [2^53], the binary64 product
    by [0.05] rounds up to the next integer: the number of duplicates is
    one more than the floor. *)
Lemma partition_sizes_beyond_double :
  1 <= 6786547011014259 /\
  partition_sizes 6786547011014259
  = inr (6243623250133119, 339327350550713, 203596410330427) /\
  partition_sizes 6786547011014259
  <> inr (spec_partition_sizes 6786547011014259).
Proof. split; [lia|]. split; by vm_compute. Qed.

(** ** The run of [generate_test_file] *)

Section Run.
Context {R : RandomGen}.

Lemma MAX_STR_INT_large : 2 ^ 1024 < MAX_STR_INT.
Proof. by vm_compute. Qed.

Lemma printable_total (n : Z) :
  Z.abs n < 2 ^ 1024 -> ~ MAX_STR_INT <= Z.abs n.
Proof. pose proof MAX_STR_INT_large. lia. Qed.

Lemma generate_test_file_run (filename : string) (total_rules : Z) (w : world)
    (num_valid num_duplicates num_invalid : Z) :
  Z.abs total_rules < 2 ^ 1024 ->
  partition_sizes total_rules = inr (num_valid, num_duplicates, num_invalid) ->
  open_error w filename = None -> open_error w (stats_path filename) = None ->
  exists rules s,
    generate_rules num_valid num_duplicates num_invalid (rng w) = inr (rules, s) /\
    (exists valid duplicate invalid,
       rules ≡ₚ (valid ++ duplicate ++ invalid)%list /\
       partitions_ok num_valid num_duplicates num_invalid valid duplicate invalid) /\
    let st := Stats total_rules num_valid num_duplicates num_invalid
                    (family_counts rules) in
    generate_test_file filename total_rules w
    = (if decide (total_rules = 0) then Some ZeroDivisionError else None,
       World s (written filename rules st ∪ fs w) (open_error w)).
Proof.
  intros Hn Hp Ho1 Ho2.
  destruct (generate_rules_spec num_valid num_duplicates num_invalid (rng w))
    as (rules & s & Hrules & Hok).
  exists rules, s. split; [done|]. split; [done|]. cbn zeta.
  unfold generate_test_file.
  rewrite decide_False by (by apply printable_total).
  rewrite Hp, Hrules, Ho1. fold (stats_path filename). rewrite Ho2. unfold written.
  rewrite <-!insert_union_l, (left_id_L ∅ (∪)).
  by destruct (decide (total_rules = 0)).
Qed.

(** C6: the run of the program is determined by its seed, file name and
    total.  Two runs, from any two states of the generator and any two
    file systems that answer alike when the two output paths are opened
    (both can be written, say), end the same way, write the same files
    with the same contents and leave the generator in the same state; when
    they end normally, the rules file and the statistics file of the one
    run equal those of the other. *)
Theorem main_deterministic (seed_value : Z) (filename : string) (total_rules : Z)
    (w1 w2 : world) :
  open_error w1 filename = open_error w2 filename ->
  open_error w1 (stats_path filename) = open_error w2 (stats_path filename) ->
  (main_with seed_value filename total_rules w1).1
  = (main_with seed_value filename total_rules w2).1
  /\ rng (main_with seed_value filename total_rules w1).2
     = rng (main_with seed_value filename total_rules w2).2
  /\ (exists files : gmap string file,
       fs (main_with seed_value filename total_rules w1).2 = files ∪ fs w1 /\
       fs (main_with seed_value filename total_rules w2).2 = files ∪ fs w2)
  /\ ((main_with seed_value filename total_rules w1).1 = None ->
      is_Some (fs (main_with seed_value filename total_rules w1).2 !! filename) /\
      fs (main_with seed_value filename total_rules w1).2 !! filename
      = fs (main_with seed_value filename total_rules w2).2 !! filename /\
      is_Some (fs (main_with seed_value filename total_rules w1).2
                 !! stats_path filename) /\
      fs (main_with seed_value filename total_rules w1).2 !! stats_path filename
      = fs (main_with seed_value filename total_rules w2).2 !! stats_path filename).
Proof.
  intros Ho1 Ho2. unfold main_with, generate_test_file, stats_path in *.
  cbn [rng fs open_error]. rewrite <-Ho1, <-Ho2.
  destruct (decide (MAX_STR_INT <= Z.abs total_rules)).
  { split; [done|]. split; [done|]. split; [|done].
    exists ∅. by rewrite !(left_id_L ∅ (∪)). }
  destruct (partition_sizes total_rules) as [e|[[v d] i]].
  { split; [done|]. split; [done|]. split; [|done].
    exists ∅. by rewrite !(left_id_L ∅ (∪)). }
  destruct (generate_rules v d i (seed seed_value)) as [e|[rules s]].
  { split; [done|]. split; [done|]. split; [|done].
    exists ∅. by rewrite !(left_id_L ∅ (∪)). }
  destruct (open_error w1 filename) as [e|].
  { split; [done|]. split; [done|]. split; [|done].
    exists ∅. by rewrite !(left_id_L ∅ (∪)). }
  set (st := Stats total_rules v d i (family_counts rules)).
  destruct (open_error w1 (Str.replace filename ".jsonl" "_stats.json")) as [e|].
  { cbn [fst snd rng fs]. split; [done|]. split; [done|]. split; [|done].
    exists (<[filename := Jsonl rules]> ∅).
    by rewrite <-!insert_union_l, !(left_id_L ∅ (∪)). }
  assert (exists files : gmap string file,
            <[Str.replace filename ".jsonl" "_stats.json" := Json st]>
              (<[filename := Jsonl rules]> (fs w1)) = files ∪ fs w1 /\
            <[Str.replace filename ".jsonl" "_stats.json" := Json st]>
              (<[filename := Jsonl rules]> (fs w2)) = files ∪ fs w2) as Hfiles.
  { exists (written filename rules st). unfold written, stats_path.
    by rewrite <-!insert_union_l, !(left_id_L ∅ (∪)). }
  assert (forall fs0 : gmap string file,
            <[Str.replace filename ".jsonl" "_stats.json" := Json st]>
              (<[filename := Jsonl rules]> fs0) !! filename
            = Some (if decide (Str.replace filename ".jsonl" "_stats.json" = filename)
                    then Json st else Jsonl rules)) as Hrules.
  { intros fs0. case_decide as Heq.
    - rewrite Heq. apply lookup_insert_eq.
    - rewrite lookup_insert_ne by done. apply lookup_insert_eq. }
  destruct (decide (total_rules = 0)); cbn [fst snd rng fs].
  - split; [done|]. split; [done|]. split; [exact Hfiles|done].
  - split; [done|]. split; [done|]. split; [exact Hfiles|]. intros _.
    rewrite !Hrules, !lookup_insert_eq. by repeat split.
Qed.

End Run.

Lemma main_deterministic_two_worlds :
  open_error (@writable_world LCG_random 1 ∅) "rules.jsonl"
  = open_error (@writable_world LCG_random 2 {["rules.jsonl" := Jsonl []]}) "rules.jsonl"
  /\ fs (main_with 42 "rules.jsonl" 20 (@writable_world LCG_random 1 ∅)).2
       !! "rules.jsonl"
     = fs (main_with 42 "rules.jsonl" 20
             (@writable_world LCG_random 2 {["rules.jsonl" := Jsonl []]})).2
       !! "rules.jsonl".
Proof.
  split; [reflexivity|].
  pose proof (@main_deterministic LCG_random 42 "rules.jsonl" 20
                (@writable_world LCG_random 1 ∅)
                (@writable_world LCG_random 2 {["rules.jsonl" := Jsonl []]})
                eq_refl eq_refl) as (_ & _ & _ & Hfiles).
  destruct (Hfiles ltac:(by vm_compute)) as (_ & Heq & _). exact Heq.
Defined.

(** Without the call of [random.seed], the output depends on the state the
    generator happens to be in. *)
Example unseeded_runs_differ :
  fs (generate_test_file "rules.jsonl" 10 (@writable_world LCG_random 1 ∅)).2
    !! "rules.jsonl"
  <> fs (generate_test_file "rules.jsonl" 10 (@writable_world LCG_random 2 ∅)).2
       !! "rules.jsonl".
Proof.
  intros H.
  apply (f_equal (fun f => match f with
                           | Some (Jsonl (r :: _)) => priority r
                           | _ => 0
                           end)) in H.
  by vm_compute in H.
Qed.

Lemma below_2_52_below_2_1024 (n : Z) : Z.abs n < 2 ^ 52 -> Z.abs n < 2 ^ 1024.
Proof.
  assert (2 ^ 52 < 2 ^ 1024) by (apply Z.pow_lt_mono_r; lia). lia.
Qed.

(** ** Input validation *)

Section Validation.
Context {R : RandomGen}.

Lemma batch_ok_nonpos (is_duplicate is_invalid : bool) (start n : Z)
    (batch : list rule) :
  n <= 0 -> batch_ok is_duplicate is_invalid start n batch -> batch = [].
Proof.
  intros Hn [Hlen _]. apply length_zero_iff_nil. lia.
Qed.

(** C8, as the code has it: a negative total (above [-2^52]) is not
    rejected.  When both paths can be opened for writing, the run computes
    sizes that are not positive, generates no rule, writes an empty rules
    file and a statistics file that records these sizes, and ends
    normally. *)
Theorem negative_total_not_rejected (filename : string) (total_rules : Z) (w : world) :
  - 2 ^ 52 < total_rules < 0 ->
  open_error w filename = None ->
  open_error w (stats_path filename) = None ->
  exists s st,
    generate_test_file filename total_rules w
    = (None, World s (written filename [] st ∪ fs w) (open_error w))
    /\ st = Stats total_rules (total_rules - total_rules ÷ 20 - 3 * total_rules ÷ 100)
                  (total_rules ÷ 20) (3 * total_rules ÷ 100)
                  ((fun family => (family, 0%nat)) <$> FAMILIES)
    /\ valid_rules st < 0 /\ duplicate_rules st <= 0 /\ invalid_rules st <= 0
    /\ ~ rejected_up_front (generate_test_file filename total_rules w) w.
Proof.
  intros Hn Ho1 Ho2.
  pose proof (partition_sizes_exact total_rules ltac:(lia)) as Hp.
  assert (Z.abs total_rules < 2 ^ 1024) as Hsmall.
  { assert (2 ^ 52 < 2 ^ 1024) by (apply Z.pow_lt_mono_r; lia). lia. }
  destruct (generate_test_file_run filename total_rules w _ _ _ Hsmall Hp Ho1 Ho2)
    as (rules & s & _ & (vs & ds & ivs & Hperm & Hv & Hd & Hi) & Hrun).
  cbn zeta in Hrun. rewrite decide_False in Hrun by lia.
  assert (total_rules - total_rules ÷ 20 - 3 * total_rules ÷ 100 < 0
          /\ total_rules ÷ 20 <= 0 /\ 3 * total_rules ÷ 100 <= 0) as (Hv0 & Hd0 & Hi0)
    by (Z.quot_rem_to_equations; lia).
  apply batch_ok_nonpos in Hv; [|lia].
  apply batch_ok_nonpos in Hd; [|lia].
  apply batch_ok_nonpos in Hi; [|lia].
  subst vs ds ivs. apply Permutation_nil_r in Hperm. subst rules.
  eexists s, _. split; [exact Hrun|]. split; [done|].
  cbn [valid_rules duplicate_rules invalid_rules].
  split; [done|]. split; [done|]. split; [done|].
  intros [e He]. rewrite Hrun in He. discriminate He.
Qed.

End Validation.

Lemma negative_total_not_rejected_at_minus_100 :
  - 2 ^ 52 < -100 < 0 /\
  exists s st,
    generate_test_file "rules.jsonl" (-100) (@writable_world LCG_random 42 ∅)
    = (None, World s (written "rules.jsonl" [] st ∪ ∅) (fun _ => None))
    /\ (valid_rules st, duplicate_rules st, invalid_rules st) = (-92, -5, -3).
Proof.
  assert (- 2 ^ 52 < -100 < 0) as H by (split; reflexivity).
  split; [exact H|].
  destruct (@negative_total_not_rejected LCG_random "rules.jsonl" (-100)
              (@writable_world LCG_random 42 ∅) H eq_refl eq_refl)
    as (s & st & Hrun & -> & _).
  eexists s, _. split; [exact Hrun|reflexivity].
Defined.

(** A total of -100 is not rejected, in a world where every path can be
    opened: the run ends normally and its statistics file records -92
    valid, -5 duplicate and -3 invalid rules. *)
Lemma negative_total_accepted :
  ~ rejected_up_front
      (generate_test_file "rules.jsonl" (-100) (@writable_world LCG_random 42 ∅))
      (@writable_world LCG_random 42 ∅)
  /\ (generate_test_file "rules.jsonl" (-100) (@writable_world LCG_random 42 ∅)).1 = None
  /\ exists st,
       fs (generate_test_file "rules.jsonl" (-100) (@writable_world LCG_random 42 ∅)).2
         !! "rules_stats.json" = Some (Json st)
       /\ (valid_rules st, duplicate_rules st, invalid_rules st) = (-92, -5, -3).
Proof.
  split; [|split].
  - intros [e He]. apply (f_equal fst) in He. by vm_compute in He.
  - by vm_compute.
  - eexists. split; by vm_compute.
Qed.

(** ** The path of the statistics file *)

Lemma replace_no_occurrence (s old new : string) :
  Str.contains s old = false -> Str.replace s old new = s.
Proof.
  unfold Str.replace. induction s as [|c s IH]; [done|].
  cbn [Str.contains Str.replace_from].
  destruct (String.prefix old (String c s)); [done|].
  intros Hc. by rewrite IH.
Qed.

Lemma replace_jsonl_changes (s : string) :
  Str.contains s ".jsonl" = true -> Str.replace s ".jsonl" "_stats.json" <> s.
Proof.
  unfold Str.replace. induction s as [|c s IH]; [done|].
  cbn [Str.contains Str.replace_from].
  destruct (String.prefix ".jsonl" (String c s)) eqn:Hpre.
  - intros _. cbn [String.prefix] in Hpre.
    destruct (ascii_dec "." c) as [<-|]; [|done].
    cbn [String.append]. intros [=].
  - intros Hc Heq. apply IH; [done|]. by injection Heq.
Qed.

Section StatsPath.
Context {R : RandomGen}.

(** C10: the statistics path is the file name with ".jsonl" replaced.
    For a run whose two paths can be opened for writing: a file name
    without ".jsonl" is its own statistics path, and after the run that
    file holds the statistics, not the rules; a file name with ".jsonl" has
    a different statistics path, and the run leaves the rules in the one
    file and the statistics in the other. *)
Theorem stats_path_overwrite (filename : string) (total_rules : Z) (w : world) :
  Z.abs total_rules < 2 ^ 52 ->
  open_error w filename = None ->
  open_error w (stats_path filename) = None ->
  let w' := (generate_test_file filename total_rules w).2 in
  (Str.contains filename ".jsonl" = false ->
     stats_path filename = filename /\
     exists st, fs w' !! filename = Some (Json st))
  /\ (Str.contains filename ".jsonl" = true ->
     stats_path filename <> filename /\
     (exists rules, fs w' !! filename = Some (Jsonl rules)) /\
     exists st, fs w' !! stats_path filename = Some (Json st)).
Proof.
  intros Hn Ho1 Ho2.
  pose proof (partition_sizes_exact total_rules Hn) as Hp.
  destruct (generate_test_file_run filename total_rules w _ _ _
              (below_2_52_below_2_1024 _ Hn) Hp Ho1 Ho2)
    as (rules & s & _ & _ & Hrun).
  cbn zeta in Hrun |- *. rewrite Hrun. cbn [snd fs]. unfold written. split.
  - intros Hc. pose proof (replace_no_occurrence filename _ "_stats.json" Hc) as Heq.
    split; [done|]. eexists. apply lookup_union_Some_l.
    unfold stats_path. rewrite Heq. apply lookup_insert_eq.
  - intros Hc. pose proof (replace_jsonl_changes filename Hc) as Hne.
    split; [done|]. split.
    + eexists. apply lookup_union_Some_l.
      rewrite lookup_insert_ne by done. apply lookup_insert_eq.
    + eexists. apply lookup_union_Some_l, lookup_insert_eq.
Qed.

End StatsPath.

Lemma stats_path_overwrite_rules_txt :
  Z.abs 100 < 2 ^ 52 /\
  stats_path "rules.txt" = "rules.txt" /\
  exists st,
    fs (generate_test_file "rules.txt" 100 (@writable_world LCG_random 42 ∅)).2
      !! "rules.txt"
    = Some (Json st).
Proof.
  assert (Z.abs 100 < 2 ^ 52) as H by reflexivity.
  split; [exact H|].
  exact (proj1 (@stats_path_overwrite LCG_random "rules.txt" 100
                  (@writable_world LCG_random 42 ∅) H eq_refl eq_refl) eq_refl).
Defined.

(** ** The statistics *)

Lemma count_exchange {A B : Type} (P : A -> B -> Prop)
    `{!forall a b, Decision (P a b)} (xs : list A) (ys : list B) :
  sum_list ((fun y => length (filter (fun x => P x y) xs)) <$> ys)
  = sum_list ((fun x => length (filter (fun y => P x y) ys)) <$> xs).
Proof.
  induction xs as [|x xs IH].
  - cbn. induction ys as [|y ys IHy]; [done|]. cbn. by rewrite IHy.
  - cbn [fmap list_fmap sum_list]. rewrite <-IH. clear IH.
    induction ys as [|y ys IHy]; [done|].
    cbn [fmap list_fmap sum_list]. rewrite !filter_cons.
    destruct (decide (P x y)); cbn [length]; rewrite IHy; unfold id; lia.
Qed.

Lemma sum_counts_family_counts (rules : list rule) :
  sum_counts (family_counts rules)
  = sum_list ((fun r => length (families_hit r)) <$> rules).
Proof.
  unfold sum_counts, family_counts, families_hit.
  rewrite <-list_fmap_compose.
  apply (count_exchange
           (fun r family => Str.startswith (default "" (rule_code r)) family = true)).
Qed.

Lemma family_keys (rules : list rule) : (family_counts rules).*1 = FAMILIES.
Proof.
  unfold family_counts. rewrite <-list_fmap_compose. apply list_fmap_id.
Qed.

Lemma generated_rule_code (r : rule) :
  generated r ->
  rule_code r = None \/
  exists family num, family ∈ FAMILIES /\ rule_code r = Some (rule_code_of family num).
Proof.
  intros (n & fam & fields & dup & inv & Hfam & _ & base & Hbase & Hr).
  destruct Hbase as ((num & Hcode & _) & _).
  assert (rule_code r = rule_code base \/ rule_code r = None) as [Hc|Hc].
  { destruct inv; [|by subst; left].
    destruct Hr as (t & Ht & ->).
    destruct (corrupt_cases t base Ht) as [H|[H|[H|[H|[H|[H|H]]]]]];
      destruct H as [_ ->]; cbn; auto. }
  - right. exists fam, num. by rewrite Hc.
  - by left.
Qed.

Lemma generated_families_hit (r : rule) :
  generated r ->
  match rule_code r with
  | Some _ => length (families_hit r) = 1%nat
  | None => families_hit r = []
  end.
Proof.
  intros [Hc|(fam & num & Hfam & Hc)]%generated_rule_code;
    unfold families_hit; rewrite Hc; [done|].
  unfold rule_code_of. generalize (Str.format_04d num). intros x.
  unfold FAMILIES in Hfam.
  repeat (apply elem_of_cons in Hfam as [->|Hfam]); [..|by apply elem_of_nil in Hfam];
    by vm_compute.
Qed.

Lemma sum_hits (rules : list rule) :
  Forall generated rules ->
  (sum_list ((fun r => length (families_hit r)) <$> rules)
   + missing_rule_code rules = length rules)%nat.
Proof.
  unfold missing_rule_code.
  induction 1 as [|r rules Hr _ IH]; [done|].
  cbn [fmap list_fmap sum_list length]. rewrite filter_cons.
  pose proof (generated_families_hit r Hr) as Hhit.
  destruct (rule_code r) as [code|].
  - rewrite Hhit, decide_False by done. unfold id in *. lia.
  - rewrite Hhit, decide_True by done. cbn [length]. unfold id in *. lia.
Qed.

Section Statistics.
Context {R : RandomGen}.

(** C5: for a total of at least 1 (and below [2^52]) and two paths that
    can be opened for writing, the run ends normally and the statistics
    file has the ten families as its keys, in order; a record that has a rule
    code is counted by exactly one family and a record without one by
    none; the counts sum to at most [total_rules], and to exactly
    [total_rules] less the number of emitted records without the key
    [rule_code]. *)
Theorem stats_family_counts (filename : string) (total : Z) (w : world) :
  1 <= total < 2 ^ 52 ->
  open_error w filename = None ->
  open_error w (stats_path filename) = None ->
  exists rules st w',
    generate_test_file filename total w = (None, w')
    /\ fs w' !! stats_path filename = Some (Json st)
    /\ generate_rules (valid_rules st) (duplicate_rules st) (invalid_rules st) (rng w)
       = inr (rules, rng w')
    /\ total_rules st = total
    /\ Z.of_nat (length rules) = total
    /\ (families st).*1 = FAMILIES
    /\ families st = (fun family => (family, family_count rules family)) <$> FAMILIES
    /\ Forall (fun r => match rule_code r with
                        | Some _ => length (families_hit r) = 1%nat
                        | None => families_hit r = []
                        end) rules
    /\ Z.of_nat (sum_counts (families st)) <= total_rules st
    /\ total_rules st - Z.of_nat (sum_counts (families st))
       = Z.of_nat (missing_rule_code rules).
Proof.
  intros Hn Ho1 Ho2.
  pose proof (partition_sizes_exact total ltac:(lia)) as Hp.
  assert (Z.abs total < 2 ^ 52) as Habs by lia.
  destruct (generate_test_file_run filename total w _ _ _
              (below_2_52_below_2_1024 _ Habs) Hp Ho1 Ho2)
    as (rules & s & Hgen & (vs & ds & ivs & Hperm & Hv & Hd & Hi) & Hrun).
  cbn zeta in Hrun. rewrite decide_False in Hrun by lia.
  assert (Forall generated rules) as Hall.
  { rewrite Hperm, !Forall_app. repeat split; eapply batch_generated; eassumption. }
  assert (Z.of_nat (length rules) = total) as Hlen.
  { rewrite Hperm, !length_app.
    destruct Hv as [-> _], Hd as [-> _], Hi as [-> _].
    Z.quot_rem_to_equations. lia. }
  pose proof (sum_hits rules Hall) as Hsum.
  rewrite <-sum_counts_family_counts in Hsum.
  eexists rules, _, _. split; [exact Hrun|]. cbn [fs rng].
  split; [apply lookup_union_Some_l, lookup_insert_eq|].
  cbn [valid_rules duplicate_rules invalid_rules total_rules families].
  split; [done|]. split; [done|]. split; [done|].
  split; [apply family_keys|]. split; [done|].
  split; [eapply Forall_impl; [exact Hall|apply generated_families_hit]|].
  lia.
Qed.

End Statistics.

Lemma stats_family_counts_100 :
  1 <= 100 < 2 ^ 52 /\
  exists rules st w',
    generate_test_file "rules.jsonl" 100 (@writable_world LCG_random 42 ∅) = (None, w')
    /\ fs w' !! stats_path "rules.jsonl" = Some (Json st)
    /\ Z.of_nat (length rules) = 100
    /\ total_rules st - Z.of_nat (sum_counts (families st))
       = Z.of_nat (missing_rule_code rules).
Proof.
  assert (1 <= 100 < 2 ^ 52) as H by (split; [lia|reflexivity]).
  split; [exact H|].
  destruct (@stats_family_counts LCG_random "rules.jsonl" 100
              (@writable_world LCG_random 42 ∅) H eq_refl eq_refl)
    as (rules & st & w' & Hrun & Hfile & _ & _ & Hlen & _ & _ & _ & _ & Hsum).
  exists rules, st, w'.
  split; [exact Hrun|]. split; [exact Hfile|]. split; [exact Hlen|exact Hsum].
Defined.

(** ** Duplicates *)

Section Duplicates.
Context {R : RandomGen}.

Lemma corrupt_rule_code (t : string) (b : rule) :
  t ∈ INVALID_TYPES -> rule_code (corrupt t b) = rule_code b \/ rule_code (corrupt t b) = None.
Proof.
  intros Ht.
  destruct (corrupt_cases t b Ht) as [H|[H|[H|[H|[H|[H|H]]]]]];
    destruct H as [_ ->]; cbn; auto.
Qed.

Lemma slot_rule_code (is_duplicate is_invalid : bool) (start : Z) (k : nat) (r : rule) :
  slot_ok is_duplicate is_invalid (Z.of_nat k) (start + Z.of_nat k) r ->
  (is_invalid = true /\ rule_code r = None)
  \/ exists code, rule_code r = Some code /\ code ∈ slot_codes is_duplicate start k.
Proof.
  intros (fam & fields & Hfam & _ & _ & base & Hbase & Hr).
  destruct Hbase as ((num & Hcode & Hnum) & _).
  assert (rule_code_of fam num ∈ slot_codes is_duplicate start k) as Hin.
  { unfold slot_codes. rewrite Hfam. cbn [default].
    apply list_elem_of_fmap_2. destruct is_duplicate.
    - destruct Hnum as (off & Hoff & ->). apply elem_of_seqZ. lia.
    - subst num. apply list_elem_of_here. }
  destruct is_invalid.
  - destruct Hr as (t & Ht & ->).
    destruct (corrupt_rule_code t base Ht) as [Hc|Hc]; rewrite Hc; [|by left].
    right. by exists (rule_code_of fam num).
  - subst r. right. by exists (rule_code_of fam num).
Qed.

(** No record of a batch has the code [code], when none of its slots can. *)
Lemma batch_code_count_0 (is_duplicate is_invalid : bool) (start n : Z)
    (code : string) (batch : list rule) :
  batch_ok is_duplicate is_invalid start n batch ->
  forallb (fun k => bool_decide (code ∉ slot_codes is_duplicate start k))
          (seq 0 (Z.to_nat n)) = true ->
  code_count code batch = 0%nat.
Proof.
  intros [Hlen Hslots] Hcheck. unfold code_count.
  apply length_zero_iff_nil.
  destruct (filter _ _) as [|c cs] eqn:Hfilter; [done|exfalso].
  assert (c ∈ filter (fun c => c = Some code) (rule_code <$> batch)) as Hc
    by (rewrite Hfilter; apply list_elem_of_here).
  apply list_elem_of_filter in Hc as [-> Hc].
  destruct (proj1 (list_elem_of_fmap _ _ _) Hc) as (r & Hr & Hin).
  apply list_elem_of_lookup in Hin as (k & Hk).
  pose proof (lookup_lt_Some _ _ _ Hk) as Hlt.
  assert (code ∉ slot_codes is_duplicate start k) as Hnot.
  { eapply bool_decide_eq_true_1. rewrite forallb_forall in Hcheck.
    apply Hcheck, in_seq. lia. }
  destruct (slot_rule_code _ _ _ _ _ (Hslots k r Hk)) as [[_ Hnone]|(c & Hsome & Hin)];
    congruence.
Qed.

(** The duplicates of a run of 100 rules: the offset is at least 100 and
    the rule numbers are 93 to 97, so that every code is built from rule
    number 1. *)
Lemma duplicates_of_100 (batch : list rule) :
  batch_ok true false 93 5 batch ->
  rule_code <$> batch
  = [ Some "fraud_detection.rule_0001"; Some "customer_segmentation.rule_0001";
      Some "pricing_engine.rule_0001"; Some "marketing_automation.rule_0001";
      Some "risk_assessment.rule_0001" ]
  /\ exists r, batch !! 1%nat = Some r /\
       description r = Some "Customer Segmentation Rule 94".
Proof.
  intros [Hlen Hslots]. split.
  - apply list_eq. intros k. rewrite list_lookup_fmap.
    destruct (batch !! k) as [r|] eqn:Hk.
    + pose proof (lookup_lt_Some _ _ _ Hk) as Hlt.
      destruct (slot_rule_code _ _ _ _ _ (Hslots k r Hk)) as [[? _]|(c & Hsome & Hin)];
        [done|].
      cbn [fmap option_fmap option_map]. rewrite Hsome.
      do 5 (destruct k as [|k];
            [vm_compute in Hin; apply list_elem_of_singleton in Hin; by subst c|]).
      change (length batch) with (length batch) in Hlt. lia.
    + apply lookup_ge_None in Hk. cbn. symmetry. apply lookup_ge_None. cbn. lia.
  - destruct (lookup_lt_is_Some_2 batch 1) as [r Hr]; [lia|].
    exists r. split; [done|].
    destruct (Hslots 1%nat r Hr) as (fam & fields & Hfam & _ & _ & base & Hbase & ->).
    destruct Hbase as (_ & -> & _).
    vm_compute in Hfam. by injection Hfam as <-.
Qed.

(** C2, on the code: in a run of 100 rules (92 valid, 5 duplicates, 3
    invalid), whatever the generator draws, the duplicate with rule number
    94 gets the code "customer_segmentation.rule_0001", and no other
    emitted record has this code: rule number 1 belongs to the family
    fraud_detection. *)
Theorem duplicate_without_original :
  returns (generate_rules 92 5 3)
    (fun rules => exists r,
       r ∈ rules /\
       description r = Some "Customer Segmentation Rule 94" /\
       rule_code r = Some "customer_segmentation.rule_0001" /\
       code_count "customer_segmentation.rule_0001" rules = 1%nat).
Proof.
  eapply returns_mono; [apply generate_rules_spec|]. cbn beta.
  intros rules (vs & ds & ivs & Hperm & Hv & Hd & Hi).
  change (1 + Z.max 0 92) with 93 in Hd.
  change (1 + Z.max 0 92 + Z.max 0 5) with 98 in Hi.
  destruct (duplicates_of_100 ds Hd) as (Hcodes & r & Hr & Hdesc).
  exists r. split; [|split; [done|split]].
  - rewrite Hperm, !elem_of_app. right. left. by eapply list_elem_of_lookup_2.
  - apply (f_equal (fun l => l !! 1%nat)) in Hcodes.
    rewrite list_lookup_fmap, Hr in Hcodes. cbn in Hcodes. congruence.
  - unfold code_count. rewrite Hperm, !fmap_app, !filter_app, !length_app.
    fold (code_count "customer_segmentation.rule_0001" vs).
    fold (code_count "customer_segmentation.rule_0001" ivs).
    rewrite (batch_code_count_0 _ _ _ _ _ vs Hv) by (by vm_compute).
    rewrite (batch_code_count_0 _ _ _ _ _ ivs Hi) by (by vm_compute).
    rewrite Hcodes. by vm_compute.
Qed.

End Duplicates.

Lemma generated_tags_rule_70 :
  "fraud_detection" ∈ FAMILIES /\
  returns (@generate_rule LCG_random 70 "fraud_detection" false false)
    (fun r => "production-critical" ∈ tags r /\ "vectorized" ∈ tags r).
Proof.
  assert ("fraud_detection" ∈ FAMILIES) as H by apply list_elem_of_here.
  split; [exact H|].
  eapply returns_mono;
    [exact (@generated_tags LCG_random 70 "fraud_detection" false false H)|].
  cbn beta. intros r (_ & _ & Hpc & _ & Hv).
  split; [by apply Hpc|by apply Hv].
Defined.

(** * Further properties of the generator *)

(** ** Families outside the table *)

Lemma family_fields_keys (family : string) :
  FAMILY_FIELDS !! family = None <-> family ∉ FAMILIES.
Proof.
  split.
  - intros Hnone Hin. destruct (family_fields_total family Hin) as (fields & Hf & _).
    congruence.
  - intros Hnot. unfold FAMILY_FIELDS. apply not_elem_of_list_to_map_1.
    intros Hin. apply Hnot. revert Hin. by vm_compute.
Qed.

Section UnknownFamily.
Context {R : RandomGen}.


End UnknownFamily.


(** ** What a run touches *)

Section Frame.
Context {R : RandomGen}.


(** X3: with a total of 0 no rule is generated: when both paths can be
    opened for writing, the run writes an empty rules file and a statistics
    file of zeros, and then fails with [ZeroDivisionError] in the summary
    it prints. *)
Theorem zero_total_fails_after_writing (filename : string) (w : world) :
  open_error w filename = None ->
  open_error w (stats_path filename) = None ->
  exists s,
    generate_test_file filename 0 w
    = (Some ZeroDivisionError,
       World s (written filename []
                  (Stats 0 0 0 0 ((fun family => (family, 0%nat)) <$> FAMILIES))
                ∪ fs w) (open_error w)).
Proof.
  intros Ho1 Ho2.
  assert (partition_sizes 0 = inr (0, 0, 0)) as Hp by reflexivity.
  assert (Z.abs 0 < 2 ^ 1024) as Hsmall by reflexivity.
  destruct (generate_test_file_run filename 0 w _ _ _ Hsmall Hp Ho1 Ho2)
    as (rules & s & _ & (vs & ds & ivs & Hperm & Hv & Hd & Hi) & Hrun).
  apply batch_ok_nonpos in Hv; [|lia].
  apply batch_ok_nonpos in Hd; [|lia].
  apply batch_ok_nonpos in Hi; [|lia].
  subst vs ds ivs. apply Permutation_nil_r in Hperm. subst rules.
  exists s. exact Hrun.
Qed.

End Frame.

Lemma zero_total_fails_after_writing_rules_jsonl :
  exists s,
    generate_test_file "rules.jsonl" 0 (@writable_world LCG_random 42 ∅)
    = (Some ZeroDivisionError,
       World s (written "rules.jsonl" []
                  (Stats 0 0 0 0 ((fun family => (family, 0%nat)) <$> FAMILIES))
                ∪ ∅) (fun _ => None)).
Proof.
  exact (@zero_total_fails_after_writing LCG_random "rules.jsonl"
           (@writable_world LCG_random 42 ∅) eq_refl eq_refl).
Defined.


(** ** Totals beyond the doubles *)

Lemma binary_round_aux_overflow (s : bool) (P : positive) (e : Z) (k : positive) :
  Z.pos (digits2_pos P) = 53 + Z.pos k ->
  971 < e + Z.pos k ->
  binary_round_aux prec64 emax64 s (Z.pos P) e loc_Exact = S754_infinity s.
Proof.
  intros Hd Hhi.
  pose proof (digits2_pos_bounds P) as HP. rewrite Hd in HP.
  replace (53 + Z.pos k - 1) with (52 + Z.pos k) in HP by lia.
  rewrite !Z.pow_add_r in HP by lia.
  unfold binary_round_aux.
  assert (shr_fexp prec64 emax64 (Z.pos P) e loc_Exact
          = (Nat.iter (Pos.to_nat k) shr_1 (Build_shr_record (Z.pos P) false false),
             e + Z.pos k)) as ->.
  { unfold shr_fexp, fexp, emin, prec64, emax64. cbn [Zdigits2 shr_record_of_loc].
    rewrite Hd.
    replace (Z.max (53 + Z.pos k + e - 53) (3 - 1024 - 53) - e) with (Z.pos k) by lia.
    cbn [shr]. by rewrite iter_pos_nat. }
  pose proof (shr_iter_inv (Z.pos P) (Pos.to_nat k) ltac:(lia)) as Hinv.
  pose proof (round_nearest_even_inv _ _ _ Hinv) as Hround. cbn zeta in Hround.
  destruct Hinv as (Hm1 & rem & Hrem & Hcase).
  rewrite positive_nat_Z in *.
  pose proof (Z.pow_pos_nonneg 2 (Z.pos k) ltac:(lia) ltac:(lia)) as HX.
  set (mrs := Nat.iter (Pos.to_nat k) shr_1 _) in *. clearbody mrs.
  set (X := 2 ^ Z.pos k) in *.
  set (m2 := round_nearest_even (shr_m mrs) (loc_of_shr_record mrs)) in *. clearbody m2.
  assert (0 <= rem < X) as Hrem_b by (destruct (shr_r mrs), (shr_s mrs); lia).
  assert (2 ^ 52 <= shr_m mrs < 2 ^ 53) as Hm1_b by (clearbody X; nia).
  destruct (decide (m2 = 2 ^ 53)) as [->|Hne].
  - unfold shr_fexp, fexp, emin, prec64, emax64.
    change (Zdigits2 (2 ^ 53)) with 54.
    replace (Z.max (54 + (e + Z.pos k) - 53) (3 - 1024 - 53) - (e + Z.pos k)) with 1 by lia.
    cbn [shr shr_record_of_loc SpecFloat.iter_pos]. change (2 ^ 53) with (Z.pos (2 ^ 52)~0).
    cbn [shr_1 shr_m orb].
    by rewrite (proj2 (Z.leb_gt (e + Z.pos k + 1) (1024 - 53))) by lia.
  - destruct m2 as [|p2|p2]; [lia| |lia].
    assert (Z.pos (digits2_pos p2) = 53) as Hd2 by (apply digits2_pos_unique; lia).
    unfold shr_fexp, fexp, emin, prec64, emax64. cbn [Zdigits2 shr_record_of_loc].
    rewrite Hd2.
    replace (Z.max (53 + (e + Z.pos k) - 53) (3 - 1024 - 53) - (e + Z.pos k))
      with 0 by lia.
    cbn [shr shr_m]. by rewrite (proj2 (Z.leb_gt (e + Z.pos k) (1024 - 53))) by lia.
Qed.

Lemma binary_round_overflow (s : bool) (p : positive) :
  2 ^ 1024 <= Z.pos p -> binary_round prec64 emax64 s p 0 = S754_infinity s.
Proof.
  intros Hp. pose proof (digits2_pos_bounds p) as Hb.
  set (d := Z.pos (digits2_pos p)) in *.
  assert (1025 <= d) as Hd.
  { destruct (decide (1025 <= d)) as [|Hn]; [done|].
    assert (2 ^ d <= 2 ^ 1024) by (apply Z.pow_le_mono_r; lia). lia. }
  unfold binary_round, shl_align, fexp, emin, prec64, emax64. fold d.
  replace (Z.max (d + 0 - 53) (3 - 1024 - 53) - 0) with (d - 53) by lia.
  destruct (d - 53) as [|k|k] eqn:Hk; [lia| |lia].
  apply (binary_round_aux_overflow s p 0 k); fold d; lia.
Qed.

Lemma partition_sizes_overflow_beyond (n : Z) :
  2 ^ 1024 <= Z.abs n -> partition_sizes n = inl OverflowError.
Proof.
  intros Hn. unfold partition_sizes, int_mul, float_of_int.
  destruct n as [|p|p]; [done|..]; cbn [binary_normalize];
    by rewrite binary_round_overflow by lia.
Qed.

Section Overflow.
Context {R : RandomGen}.

(** X4: a total of absolute value [2^1024] or more makes the run raise
    before it draws a number, opens a path or writes a file.  Below
    [10^4300] the first message is printed and the total cannot be
    converted to a double for the product by [0.05]: the run raises
    [OverflowError].  From [10^4300] on the total has more than 4300 digits
    and the first message cannot be printed: the run raises
    [ValueError]. *)
Theorem huge_total_overflows (filename : string) (total_rules : Z) (w : world) :
  2 ^ 1024 <= Z.abs total_rules ->
  generate_test_file filename total_rules w
  = (Some (if decide (Z.abs total_rules < MAX_STR_INT) then OverflowError
           else ValueError), w).
Proof.
  intros Hn. unfold generate_test_file.
  destruct (decide (MAX_STR_INT <= Z.abs total_rules)) as [Hbig|Hsmall].
  - by rewrite decide_False by lia.
  - rewrite decide_True by lia. by rewrite partition_sizes_overflow_beyond.
Qed.

End Overflow.

Lemma huge_total_overflows_at_2_1024 :
  2 ^ 1024 <= Z.abs (2 ^ 1024) /\
  generate_test_file "rules.jsonl" (2 ^ 1024) (@writable_world LCG_random 42 ∅)
  = (Some OverflowError, @writable_world LCG_random 42 ∅).
Proof.
  assert (2 ^ 1024 <= Z.abs (2 ^ 1024)) as H by (by vm_compute).
  split; [exact H|].
  rewrite (@huge_total_overflows LCG_random "rules.jsonl" (2 ^ 1024) _ H).
  by rewrite decide_True by (by vm_compute).
Defined.

(** ** The valid and the duplicate partition *)

Section Partitions.
Context {R : RandomGen}.

Lemma uncorrupted_well_formed (rule_num : Z) (family : string)
    (fields : list string) (is_duplicate : bool) (r : rule) :
  generated_ok rule_num family fields is_duplicate false r -> well_formed r.
Proof.
  intros (base & Hbase & ->).
  destruct Hbase as ((num & Hcode & _) & Hdesc & (cs & Hcs & Hlen & _) & Hprio & _).
  unfold well_formed. rewrite Hcode, Hdesc, Hcs.
  repeat split; try done; try lia; [by exists cs|].
  intros [] Hc; cbn in Hc; try congruence; try lia.
  rewrite Hcs in Hc. injection Hc as ->. cbn in Hlen. lia.
Qed.

(** X5: corruption is confined to the invalid partition: every record of the
    valid and of the duplicate partition has its rule code, its
    description, one to four conditions and a priority in 1..1000, and
    exhibits none of the seven corruptions. *)
Theorem valid_and_duplicate_well_formed (num_valid num_duplicates num_invalid : Z) :
  returns (generate_unshuffled num_valid num_duplicates num_invalid)
    (fun rules => exists valid duplicate invalid,
       rules = (valid ++ duplicate ++ invalid)%list /\
       length valid = Z.to_nat num_valid /\
       length duplicate = Z.to_nat num_duplicates /\
       length invalid = Z.to_nat num_invalid /\
       Forall well_formed (valid ++ duplicate)).
Proof.
  eapply returns_mono; [apply generate_unshuffled_spec|]. cbn beta.
  intros rules (vs & ds & ivs & -> & (Hv & Hvs) & (Hd & Hds) & (Hi & _)).
  exists vs, ds, ivs. repeat split; [done..|].
  apply Forall_app. split; apply Forall_lookup; intros k r Hk.
  - destruct (Hvs k r Hk) as (fam & fields & _ & _ & _ & Hok).
    by eapply uncorrupted_well_formed.
  - destruct (Hds k r Hk) as (fam & fields & _ & _ & _ & Hok).
    by eapply uncorrupted_well_formed.
Qed.

(** X6: the number in a duplicate's code is that of an earlier rule: with at
    least one valid rule, the duplicate at index [k] of its loop, whose own
    rule number is [num_valid + k + 1], gets the code of its own family
    (the one of index [k mod 10]) with a number from 1 to below its own,
    which is 100 to 500 below its own unless it is floored at 1. *)
Theorem duplicate_number_earlier (num_valid num_duplicates num_invalid : Z) :
  1 <= num_valid ->
  returns (generate_unshuffled num_valid num_duplicates num_invalid)
    (fun rules => exists valid duplicate invalid,
       rules = (valid ++ duplicate ++ invalid)%list /\
       length valid = Z.to_nat num_valid /\
       length duplicate = Z.to_nat num_duplicates /\
       forall (k : nat) r, duplicate !! k = Some r ->
         exists family num,
           FAMILIES !! (k `mod` 10)%nat = Some family /\
           rule_code r = Some (rule_code_of family num) /\
           1 <= num < num_valid + Z.of_nat k + 1 /\
           (num = 1 \/ 100 <= num_valid + Z.of_nat k + 1 - num <= 500)).
Proof.
  intros Hv1.
  eapply returns_mono; [apply generate_unshuffled_spec|]. cbn beta.
  intros rules (vs & ds & ivs & -> & (Hv & _) & (Hd & Hds) & _).
  exists vs, ds, ivs. repeat split; [done..|].
  intros k r Hk.
  destruct (Hds k r Hk) as (fam & fields & Hfam & _ & _ & base & Hbase & ->).
  destruct Hbase as ((num & Hcode & off & Hoff & Hnum) & _).
  exists fam, num. split.
  { rewrite <-Hfam. f_equal. apply Nat2Z.inj.
    rewrite Nat2Z.inj_mod, Z2Nat.id; [done|]. apply Z.mod_pos_bound. lia. }
  split; [done|]. lia.
Qed.

End Partitions.

Lemma duplicate_number_earlier_92 :
  1 <= 92 /\
  returns (@generate_unshuffled LCG_random 92 5 3)
    (fun rules => exists r, rules !! 93%nat = Some r /\
                            rule_code r = Some "customer_segmentation.rule_0001").
Proof.
  assert (1 <= 92) as H by lia.
  split; [exact H|].
  eapply returns_mono; [exact (@duplicate_number_earlier LCG_random 92 5 3 H)|].
  cbn beta. intros rules (vs & ds & ivs & -> & Hv & Hd & Hdup).
  destruct (lookup_lt_is_Some_2 ds 1) as [r Hr]; [lia|].
  exists r. split.
  - rewrite lookup_app_r by lia. rewrite Hv. rewrite lookup_app_l by lia. exact Hr.
  - destruct (Hdup 1%nat r Hr) as (fam & num & Hfam & Hcode & Hnum & Hoff).
    injection Hfam as <-. rewrite Hcode.
    assert (num = 1) as -> by lia. reflexivity.
Defined.

(** ** Rule codes determine the family and the number *)

Lemma pretty_N_go_head (x : N) (s : string) :
  (0 < x)%N -> exists c t, pretty_N_go x s = String c t /\ c <> "0"%char.
Proof.
  revert s. induction (N.lt_wf_0 x) as [x _ IH]; intros s Hx.
  rewrite pretty_N_go_step by done.
  destruct (decide (x < 10)%N) as [Hlt|Hge].
  - rewrite N.div_small, pretty_N_go_0 by done.
    rewrite N.mod_small by done. eexists _, _. split; [done|].
    assert (x = 1 \/ x = 2 \/ x = 3 \/ x = 4 \/ x = 5 \/ x = 6
            \/ x = 7 \/ x = 8 \/ x = 9)%N as Hcases by lia.
    by repeat (destruct Hcases as [->|Hcases]); [..|subst x].
  - apply IH; [by apply N.div_lt|]. apply N.div_str_pos. lia.
Qed.

Lemma pretty_N_head (x : N) :
  exists c t, pretty x = String c t /\ (c = "0"%char -> x = 0%N).
Proof.
  unfold pretty, pretty_N. destruct (decide (x = 0%N)) as [->|Hx].
  - by eexists _, _.
  - destruct (pretty_N_go_head x "" ltac:(lia)) as (c & t & -> & Hc).
    by exists c, t.
Qed.

Lemma zeros_pad_inj (a b : nat) (c1 c2 : ascii) (t1 t2 : string) :
  Str.zeros a +:+ String c1 t1 = Str.zeros b +:+ String c2 t2 ->
  (a = b /\ String c1 t1 = String c2 t2)
  \/ ((a < b)%nat /\ c1 = "0"%char) \/ ((b < a)%nat /\ c2 = "0"%char).
Proof.
  revert b. induction a as [|a IH]; intros [|b];
    cbn [Str.zeros String.append]; intros Heq.
  - by left.
  - right. left. split; [lia|]. by injection Heq.
  - right. right. split; [lia|]. by injection Heq.
  - injection Heq as Heq. destruct (IH b Heq) as [[-> ?]|[[? ?]|[? ?]]].
    + by left.
    + right. left. split; [lia|done].
    + right. right. split; [lia|done].
Qed.

(** [f"{n:04d}"] tells numbers apart. *)
Lemma format_04d_inj (n1 n2 : Z) :
  0 <= n1 -> 0 <= n2 -> Str.format_04d n1 = Str.format_04d n2 -> n1 = n2.
Proof.
  intros H1 H2. unfold Str.format_04d.
  rewrite !(proj2 (Z.ltb_ge _ 0)) by done.
  destruct (pretty_N_head (Z.to_N n1)) as (c1 & t1 & Hd1 & Hz1).
  destruct (pretty_N_head (Z.to_N n2)) as (c2 & t2 & Hd2 & Hz2).
  assert (forall n c t, pretty (Z.to_N n) = String c t -> c = "0"%char ->
            String.length (pretty (Z.to_N n)) = 1%nat) as Hlen0.
  { intros n c t Hd Hc. destruct (pretty_N_head (Z.to_N n)) as (c' & t' & Hd' & Hz').
    rewrite Hd in Hd'. injection Hd' as <- <-. by rewrite (Hz' Hc). }
  pose proof (Hlen0 n1 c1 t1 Hd1) as Hl1. pose proof (Hlen0 n2 c2 t2 Hd2) as Hl2.
  rewrite Hd1, Hd2 in *. cbn [String.length] in *.
  intros [[_ Heq]|[[Hlt Hc]|[Hlt Hc]]]%zeros_pad_inj.
  - rewrite <-Hd1, <-Hd2 in Heq. apply (inj pretty) in Heq. lia.
  - specialize (Hl1 Hc). lia.
  - specialize (Hl2 Hc). lia.
Qed.

Lemma rule_code_of_inj (family1 family2 : string) (n1 n2 : Z) :
  family1 ∈ FAMILIES -> family2 ∈ FAMILIES -> 0 <= n1 -> 0 <= n2 ->
  rule_code_of family1 n1 = rule_code_of family2 n2 ->
  family1 = family2 /\ n1 = n2.
Proof.
  intros Hf1 Hf2 H1 H2 Heq.
  cut (family1 = family2 /\ Str.format_04d n1 = Str.format_04d n2).
  { intros [-> Hfmt]. split; [done|]. by apply format_04d_inj. }
  unfold rule_code_of in Heq. revert Heq.
  generalize (Str.format_04d n1) (Str.format_04d n2). intros x1 x2.
  unfold FAMILIES in Hf1, Hf2.
  repeat (apply elem_of_cons in Hf1 as [->|Hf1]); [..|by apply elem_of_nil in Hf1];
    repeat (apply elem_of_cons in Hf2 as [->|Hf2]); try (by apply elem_of_nil in Hf2);
    cbn [String.append]; intros Heq; by simplify_eq.
Qed.

Section Codes.
Context {R : RandomGen}.

Lemma corrupt_description (t : string) (b : rule) :
  t ∈ INVALID_TYPES ->
  description (corrupt t b) = description b \/ description (corrupt t b) = None.
Proof.
  intros Ht.
  destruct (corrupt_cases t b Ht) as [H|[H|[H|[H|[H|[H|H]]]]]];
    destruct H as [_ ->]; cbn; auto.
Qed.

(** What the record of a slot shows of its family and its number. *)
Lemma slot_facts (is_duplicate is_invalid : bool) (i rule_num : Z) (r : rule) :
  0 <= i ->
  slot_ok is_duplicate is_invalid i rule_num r ->
  exists family,
    FAMILIES !! Z.to_nat (i `mod` 10) = Some family /\ family ∈ FAMILIES /\
    tags r = rule_tags rule_num family /\
    (description r = None \/ description r = Some (description_of family rule_num)) /\
    (rule_code r = None \/
     exists num, rule_code r = Some (rule_code_of family num) /\
       if is_duplicate then 1 <= num else num = rule_num).
Proof.
  intros Hi (fam & fields & Hfam & _ & _ & base & Hbase & Hr).
  destruct Hbase as ((num & Hcode & Hnum) & Hdesc & _ & _ & Htags).
  exists fam. split; [done|]. split; [by eapply list_elem_of_lookup_2|].
  assert (if is_duplicate then 1 <= num else num = rule_num) as Hnum'.
  { destruct is_duplicate; [|done]. destruct Hnum as (off & _ & ->). lia. }
  destruct is_invalid.
  - destruct Hr as (t & Ht & ->). rewrite corrupt_tags. split; [done|]. split.
    + destruct (corrupt_description t base Ht) as [->| ->]; auto.
    + destruct (corrupt_rule_code t base Ht) as [->| ->]; [|by left].
      right. by exists num.
  - subst r. split; [done|]. split; [by right|]. right. by exists num.
Qed.

(** X7: outside the duplicate partition no two records share a rule code:
    among the valid and the invalid records that have one, the codes are
    pairwise distinct. *)
Theorem codes_distinct_outside_duplicates (num_valid num_duplicates num_invalid : Z) :
  returns (generate_unshuffled num_valid num_duplicates num_invalid)
    (fun rules => exists valid duplicate invalid,
       rules = (valid ++ duplicate ++ invalid)%list /\
       length valid = Z.to_nat num_valid /\
       length duplicate = Z.to_nat num_duplicates /\
       length invalid = Z.to_nat num_invalid /\
       forall (j1 j2 : nat) r1 r2 code,
         (valid ++ invalid)%list !! j1 = Some r1 ->
         (valid ++ invalid)%list !! j2 = Some r2 ->
         rule_code r1 = Some code -> rule_code r2 = Some code -> j1 = j2).
Proof.
  eapply returns_mono; [apply generate_unshuffled_spec|]. cbn beta.
  intros rules (vs & ds & ivs & -> & (Hv & Hvs) & (Hd & _) & (Hi & Hivs)).
  exists vs, ds, ivs. repeat split; [done..|].
  set (number := fun j : nat =>
         if decide (j < length vs)%nat then 1 + Z.of_nat j
         else 1 + Z.max 0 num_valid + Z.max 0 num_duplicates
              + Z.of_nat (j - length vs)).
  assert (forall j r code, (vs ++ ivs)%list !! j = Some r -> rule_code r = Some code ->
            exists family, family ∈ FAMILIES /\ code = rule_code_of family (number j))
    as Hnum.
  { intros j r code Hj Hcode. unfold number.
    apply lookup_app_Some in Hj as [Hj|[Hge Hj]].
    - pose proof (lookup_lt_Some _ _ _ Hj). rewrite decide_True by done.
      destruct (slot_facts _ _ _ _ _ (Nat2Z.is_nonneg _) (Hvs j r Hj))
        as (fam & _ & Hin & _ & _ & [Hc|(num & Hc & ->)]); [congruence|].
      exists fam. split; [done|congruence].
    - rewrite decide_False by lia.
      destruct (slot_facts _ _ _ _ _ (Nat2Z.is_nonneg _) (Hivs _ r Hj))
        as (fam & _ & Hin & _ & _ & [Hc|(num & Hc & ->)]); [congruence|].
      exists fam. split; [done|congruence]. }
  intros j1 j2 r1 r2 code Hj1 Hj2 Hc1 Hc2.
  destruct (Hnum j1 r1 code Hj1 Hc1) as (f1 & Hf1 & Heq1).
  destruct (Hnum j2 r2 code Hj2 Hc2) as (f2 & Hf2 & Heq2).
  rewrite Heq1 in Heq2.
  apply lookup_lt_Some in Hj1, Hj2. rewrite length_app in Hj1, Hj2.
  apply rule_code_of_inj in Heq2 as [_ Heq]; [|done|done|..];
    unfold number in *; cbv beta in *; repeat case_decide; lia.
Qed.

(** X8: the families are assigned round-robin within each partition and the
    rule numbers run on from 1 across the three.  The list before the
    shuffle is the valid partition, of [num_valid] records, followed by the
    duplicate partition, of [num_duplicates] records, and the invalid
    partition, of [num_invalid] records (none for a size that is not
    positive); the record at index [k] of its partition is tagged first
    with the family of index [k mod 10], and the record at position [j] of
    the whole list has the bucket tag and, unless it was deleted, the
    description of rule number [j + 1]. *)
Theorem round_robin_numbering (num_valid num_duplicates num_invalid : Z) :
  returns (generate_unshuffled num_valid num_duplicates num_invalid)
    (fun rules => exists valid duplicate invalid,
       rules = (valid ++ duplicate ++ invalid)%list /\
       length valid = Z.to_nat num_valid /\
       length duplicate = Z.to_nat num_duplicates /\
       length invalid = Z.to_nat num_invalid /\
       (forall batch, batch ∈ [valid; duplicate; invalid] ->
          forall (k : nat) r, batch !! k = Some r ->
            head (tags r) = FAMILIES !! (k `mod` 10)%nat) /\
       forall (j : nat) r, rules !! j = Some r ->
         tags r !! 1%nat = Some ("batch_" +:+ Str.of_int ((Z.of_nat j + 1) `div` 100)) /\
         forall text, description r = Some text ->
           exists family, head (tags r) = Some family /\
                          text = description_of family (Z.of_nat j + 1)).
Proof.
  eapply returns_mono; [apply generate_unshuffled_spec|]. cbn beta.
  intros rules (vs & ds & ivs & -> & (Hv & Hvs) & (Hd & Hds) & (Hi & Hivs)).
  exists vs, ds, ivs. split; [done|].
  split; [exact Hv|]. split; [exact Hd|]. split; [exact Hi|].
  assert (forall n fam, head (rule_tags n fam) = Some fam /\
            rule_tags n fam !! 1%nat = Some ("batch_" +:+ Str.of_int (n `div` 100)))
    as Htags by (intros n fam; unfold rule_tags; by repeat case_bool_decide).
  assert (forall (k : nat), Z.to_nat (Z.of_nat k `mod` 10) = (k `mod` 10)%nat) as Hmod.
  { intros k. apply Nat2Z.inj.
    rewrite Nat2Z.inj_mod, Z2Nat.id; [done|]. apply Z.mod_pos_bound. lia. }
  split.
  - intros batch Hb k r Hk.
    assert (exists dup inv start, slot_ok dup inv (Z.of_nat k) start r)
      as (dup & inv & start & Hslot).
    { repeat (apply elem_of_cons in Hb as [->|Hb]); [..|by apply elem_of_nil in Hb];
        eauto. }
    destruct (slot_facts _ _ _ _ _ (Nat2Z.is_nonneg _) Hslot) as (fam & Hfam & _ & -> & _).
    rewrite (proj1 (Htags _ _)), <-Hmod. done.
  - intros j r Hj.
    assert (exists dup inv i, slot_ok dup inv i (Z.of_nat j + 1) r /\ 0 <= i)
      as (dup & inv & i & Hslot & Hi0).
    { apply lookup_app_Some in Hj as [Hj|[Hge1 Hj]].
      { exists false, false, (Z.of_nat j). split; [|lia].
        replace (Z.of_nat j + 1) with (1 + Z.of_nat j) by lia. by apply Hvs. }
      apply lookup_app_Some in Hj as [Hj|[Hge2 Hj]].
      { exists true, false, (Z.of_nat (j - length vs)). split; [|lia].
        replace (Z.of_nat j + 1)
          with (1 + Z.max 0 num_valid + Z.of_nat (j - length vs)) by lia.
        by apply Hds. }
      exists false, true, (Z.of_nat (j - length vs - length ds)). split; [|lia].
      replace (Z.of_nat j + 1)
        with (1 + Z.max 0 num_valid + Z.max 0 num_duplicates
              + Z.of_nat (j - length vs - length ds)) by lia.
      by apply Hivs. }
    destruct (slot_facts _ _ _ _ _ Hi0 Hslot) as (fam & _ & _ & -> & Hdesc & _).
    split; [apply Htags|].
    intros text Htext. exists fam. split; [apply Htags|].
    destruct Hdesc as [Hd'|Hd']; congruence.
Qed.

End Codes.

(** ** Tags and family counts of the emitted records *)

Section Emitted.
Context {R : RandomGen}.

Lemma generated_family (r : rule) :
  generated r ->
  exists rule_num family fields,
    family ∈ FAMILIES /\ FAMILY_FIELDS !! family = Some fields /\
    tags r = rule_tags rule_num family /\
    (rule_code r = None \/ exists num, rule_code r = Some (rule_code_of family num)) /\
    forall cs, conditions r = Some cs -> Forall (condition_ok fields) cs.
Proof.
  intros (n & fam & fields & dup & inv & Hfam & Hff & base & Hbase & Hr).
  destruct Hbase as ((num & Hcode & _) & _ & (cs0 & Hcs0 & _ & Hall) & _ & Htags).
  exists n, fam, fields. split; [done|]. split; [done|].
  destruct inv.
  - destruct Hr as (t & Ht & ->). rewrite corrupt_tags. split; [done|]. split.
    + destruct (corrupt_rule_code t base Ht) as [->| ->]; [|by left].
      right. by exists num.
    + intros cs Hcs.
      destruct (corrupt_cases t base Ht) as [H|[H|[H|[H|[H|[H|H]]]]]];
        destruct H as [_ Heq]; rewrite Heq in Hcs; cbn in Hcs;
        by simplify_eq.
  - subst r. split; [done|]. split; [right; by exists num|].
    intros cs Hcs. by simplify_eq.
Qed.

Lemma rule_tags_NoDup (rule_num : Z) (family : string) :
  family ∈ FAMILIES ->
  NoDup (rule_tags rule_num family) /\ (2 <= length (rule_tags rule_num family) <= 5)%nat.
Proof.
  intros Hf. destruct (family_not_marker family Hf) as (Hpc & Hhp & Hv).
  assert (family <> "batch_" +:+ Str.of_int (rule_num `div` 100)) as Hb.
  { generalize (Str.of_int (rule_num `div` 100)). intros x. unfold FAMILIES in Hf.
    repeat (apply elem_of_cons in Hf as [->|Hf]); [..|by apply elem_of_nil in Hf];
      done. }
  unfold rule_tags. revert Hb.
  change ("batch_" +:+ ?x) with (String "b" ("atch_" +:+ x)).
  generalize ("atch_" +:+ Str.of_int (rule_num `div` 100)). intros x Hb.
  repeat case_bool_decide; cbn [app length]; (split; [|lia]);
    rewrite !NoDup_cons, !elem_of_cons, !elem_of_nil;
    repeat split; try apply NoDup_nil_2; intros Hin;
    repeat (destruct Hin as [Hin|Hin]); try done; congruence.
Qed.

(** X9: the tags of an emitted record are a set: two to five entries, no
    entry twice. *)
Theorem emitted_tags_distinct (num_valid num_duplicates num_invalid : Z) :
  returns (generate_rules num_valid num_duplicates num_invalid)
    (Forall (fun r => NoDup (tags r) /\ (2 <= length (tags r) <= 5)%nat)).
Proof.
  eapply returns_mono; [apply generate_rules_generated|]. cbn beta.
  intros rules Hgen. eapply Forall_impl; [exact Hgen|]. cbn beta.
  intros r (n & fam & fields & Hfam & _ & -> & _)%generated_family.
  by apply rule_tags_NoDup.
Qed.

(** X10: an emitted record that has a rule code is counted under its own
    family, the first of its tags, and under no other. *)
Theorem emitted_counted_under_own_family (num_valid num_duplicates num_invalid : Z) :
  returns (generate_rules num_valid num_duplicates num_invalid)
    (Forall (fun r => forall code, rule_code r = Some code ->
       exists family, head (tags r) = Some family /\ families_hit r = [family])).
Proof.
  eapply returns_mono; [apply generate_rules_generated|]. cbn beta.
  intros rules Hgen. eapply Forall_impl; [exact Hgen|]. cbn beta.
  intros r (n & fam & fields & Hfam & _ & Htags & Hcode & _)%generated_family code Hc.
  destruct Hcode as [Hnone|(num & Hsome)]; [congruence|].
  exists fam. split.
  { rewrite Htags. unfold rule_tags. by repeat case_bool_decide. }
  unfold families_hit. rewrite Hsome. unfold rule_code_of.
  generalize (Str.format_04d num). intros x. unfold FAMILIES in Hfam.
  repeat (apply elem_of_cons in Hfam as [->|Hfam]); [..|by apply elem_of_nil in Hfam];
    by vm_compute.
Qed.

(** X11: every condition of an emitted record names a field of the record's
    family (the first of its tags) and one of the seven operators. *)
Theorem emitted_conditions_vocabulary (num_valid num_duplicates num_invalid : Z) :
  returns (generate_rules num_valid num_duplicates num_invalid)
    (Forall (fun r => exists family fields,
       head (tags r) = Some family /\ FAMILY_FIELDS !! family = Some fields /\
       forall cs, conditions r = Some cs ->
         Forall (fun c => field c ∈ fields /\ operator c ∈ ALL_OPERATORS) cs)).
Proof.
  eapply returns_mono; [apply generate_rules_generated|]. cbn beta.
  intros rules Hgen. eapply Forall_impl; [exact Hgen|]. cbn beta.
  intros r (n & fam & fields & Hfam & Hff & Htags & _ & Hconds)%generated_family.
  exists fam, fields. split.
  { rewrite Htags. unfold rule_tags. by repeat case_bool_decide. }
  split; [done|]. intros cs Hcs.
  eapply Forall_impl; [exact (Hconds cs Hcs)|]. cbn beta.
  intros c [Hfield Hval]. split; [done|].
  assert (forall op : string, op ∈ ["IS_ANY_OF"; "IS_NONE_OF"; "BETWEEN";
            "GREATER_THAN"; "LESS_THAN"; "EQUAL_TO"; "NOT_EQUAL_TO"] ->
            op ∈ ALL_OPERATORS) as Hall.
  { intros op Hop.
    repeat (apply elem_of_cons in Hop as [->|Hop]); [..|by apply elem_of_nil in Hop];
      by apply (bool_decide_unpack _). }
  apply Hall.
  destruct Hval as [(Hop & _)|[(Hop & _)|[(Hop & _)|(Hop & _)]]];
    [| rewrite Hop | |];
    repeat (apply elem_of_cons in Hop as [->|Hop]); try (by apply elem_of_nil in Hop);
    by apply (bool_decide_unpack _).
Qed.

End Emitted.

(** ** Scalar values *)

Section Scalars.
Context {R : RandomGen}.

Ltac eval_cond :=
  match goal with
  | |- context [if ?b then _ else _] =>
      let v := eval vm_compute in b in
      first [ change b with true | change b with false ]; cbv iota
  end.

Ltac split_ops :=
  repeat match goal with
    | H : _ ∈ _ :: _ |- _ => apply elem_of_cons in H as [H|H]
    | H : _ ∈ [] |- _ => by apply elem_of_nil in H
    end.

Lemma returns_scalar_by_suffix (fld : string) :
  returns (if (Str.endswith fld "_enabled" || Str.endswith fld "mfa_enabled")%bool
           then PBool <$> py_choice [true; false]
           else py_choice
                  (default (PStr <$> ["ACTIVE"; "PENDING"]) (SAMPLE_VALUES !! "status")))
    (fun v => if (Str.endswith fld "_enabled" || Str.endswith fld "mfa_enabled")%bool
              then exists b, v = PBool b
              else exists st, v = PStr st /\ st ∈ STATUSES).
Proof.
  destruct (Str.endswith fld "_enabled" || Str.endswith fld "mfa_enabled")%bool.
  - eapply returns_fmap; [by apply (returns_choice [true; false])|].
    cbn beta. intros b _. by exists b.
  - eapply returns_mono; [apply returns_choice; by vm_compute|].
    cbn beta. intros v Hv.
    change (v ∈ PStr <$> STATUSES) in Hv.
    destruct (proj1 (list_elem_of_fmap _ _ _) Hv) as (st & Heq & Hst). by exists st.
Qed.

Lemma generate_condition_scalar (fields : list string) :
  fields <> [] ->
  returns (generate_condition fields)
    (fun c => field c ∈ fields /\ scalar_by_suffix c).
Proof.
  intros Hf. unfold generate_condition.
  eapply returns_bind; [by apply returns_choice|]. cbn beta. intros fld Hfld.
  eapply returns_bind; [by apply (returns_choice ALL_OPERATORS)|]. cbn beta.
  intros op Hop.
  unfold ALL_OPERATORS, VECTORIZABLE_OPERATORS, NON_VECTORIZABLE_OPERATORS in Hop.
  cbn [app] in Hop.
  repeat (apply elem_of_cons in Hop as [->|Hop]); [..|by apply elem_of_nil in Hop];
    repeat eval_cond;
    (eapply returns_bind;
     [ first [ apply returns_scalar_by_suffix | apply returns_set_value
             | apply returns_than_value | apply returns_between_value ] |]);
    cbn beta; intros v Hv; apply returns_ret; (split; [done|]);
    unfold scalar_by_suffix; cbn [operator value field];
    split; intros Hop'; try done; split_ops; congruence.
Qed.

(** The conditions of a rule are those the loop of [generate_rule] made,
    unless the rule is an invalid one without them. *)
Lemma generate_rule_conditions (Q : condition -> Prop) (rule_num : Z)
    (family : string) (fields : list string) (is_duplicate is_invalid : bool) :
  FAMILY_FIELDS !! family = Some fields ->
  returns (generate_condition fields) Q ->
  returns (generate_rule rule_num family is_duplicate is_invalid)
    (fun r => forall cs, conditions r = Some cs -> Forall Q cs).
Proof.
  intros Hff HQ. unfold generate_rule.
  eapply (returns_bind _ _ (fun _ => True)).
  { destruct is_duplicate; [|by apply returns_ret].
    eapply returns_bind; [by apply (returns_randint 100 500)|]. cbn beta.
    intros off _. by apply returns_ret. }
  intros code _.
  eapply returns_bind; [by apply returns_getitem|]. cbn beta. intros ? ->.
  eapply returns_bind; [by apply (returns_randint 1 4)|]. cbn beta. intros k _.
  eapply returns_bind; [by apply returns_repeatM|]. cbn beta. intros cs0 [_ Hcs0].
  eapply returns_bind; [by apply (returns_randint 1 1000)|]. cbn beta. intros prio _.
  eapply returns_bind; [by apply (returns_choice [true; true; true; false])|].
  cbn beta. intros en _.
  destruct is_invalid.
  - eapply returns_bind; [by apply (returns_choice INVALID_TYPES)|]. cbn beta.
    intros t Ht. apply returns_ret. intros cs Hcs.
    destruct (corrupt_cases t (Rule (Some code) (Some (description_of family rule_num))
                (Some cs0) prio en (rule_tags rule_num family)) Ht)
      as [H|[H|[H|[H|[H|[H|H]]]]]];
      destruct H as [_ Heq]; rewrite Heq in Hcs; cbn in Hcs; by simplify_eq.
  - apply returns_ret. intros cs Hcs. cbn in Hcs. by simplify_eq.
Qed.

(** What holds of every rule [generate_rule] makes for one of the ten
    families holds of every emitted record. *)
Lemma gen_loop_Forall (P : rule -> Prop) (is_duplicate is_invalid : bool) (n : nat) :
  (forall rule_num family, family ∈ FAMILIES ->
     returns (generate_rule rule_num family is_duplicate is_invalid) P) ->
  forall (i0 : Z) (rules : list rule) (rule_num : Z), 0 <= i0 -> Forall P rules ->
  returns (gen_loop (seqZ i0 (Z.of_nat n)) is_duplicate is_invalid rules rule_num)
    (fun out => Forall P out.1).
Proof.
  intros HP. induction n as [|n IH]; intros i0 rules rule_num Hi0 Hrules.
  - cbn. by apply returns_ret.
  - rewrite seqZ_cons by lia. cbn [gen_loop].
    destruct (families_lookup i0 Hi0) as (fam & Hfam & Hin).
    eapply returns_bind; [by apply returns_index|]. cbn beta. intros ? ->.
    eapply returns_bind; [by apply HP|]. cbn beta. intros r Hr.
    replace (Z.pred (Z.of_nat (S n))) with (Z.of_nat n) by lia.
    apply IH; [lia|]. apply Forall_app. split; [done|]. by apply Forall_singleton.
Qed.

Lemma gen_loop_range_Forall (P : rule -> Prop) (is_duplicate is_invalid : bool)
    (n : Z) (rules : list rule) (rule_num : Z) :
  (forall rule_num family, family ∈ FAMILIES ->
     returns (generate_rule rule_num family is_duplicate is_invalid) P) ->
  Forall P rules ->
  returns (gen_loop (range n) is_duplicate is_invalid rules rule_num)
    (fun out => Forall P out.1).
Proof.
  intros HP Hrules. unfold range.
  replace (seqZ 0 n) with (seqZ 0 (Z.of_nat (Z.to_nat n))).
  2:{ destruct (decide (0 <= n)); [by rewrite Z2Nat.id|].
      rewrite !seqZ_nil; [done|lia..]. }
  by apply gen_loop_Forall.
Qed.

Lemma generate_rules_Forall (P : rule -> Prop) (num_valid num_duplicates num_invalid : Z) :
  (forall rule_num family is_duplicate is_invalid, family ∈ FAMILIES ->
     returns (generate_rule rule_num family is_duplicate is_invalid) P) ->
  returns (generate_rules num_valid num_duplicates num_invalid) (Forall P).
Proof.
  intros HP. unfold generate_rules, generate_unshuffled.
  eapply returns_bind.
  { eapply returns_bind; [apply (gen_loop_range_Forall P); [by auto|done]|]. cbn beta.
    intros [rules1 rn1] H1. cbn [fst] in H1.
    eapply returns_bind; [apply (gen_loop_range_Forall P); [by auto|done]|]. cbn beta.
    intros [rules2 rn2] H2. cbn [fst] in H2.
    eapply returns_bind; [apply (gen_loop_range_Forall P); [by auto|done]|]. cbn beta.
    intros [rules3 rn3] H3. cbn [fst] in H3.
    apply returns_ret. exact H3. }
  cbn beta. intros unshuffled Hall.
  eapply returns_mono; [apply returns_shuffle|]. cbn beta.
  intros rules Hperm. by rewrite Hperm.
Qed.

Lemma enabled_suffix_fields (family : string) (fields : list string) (fld : string) :
  FAMILY_FIELDS !! family = Some fields -> fld ∈ fields ->
  (Str.endswith fld "_enabled" || Str.endswith fld "mfa_enabled")%bool
  = bool_decide (fld = "mfa_enabled").
Proof.
  intros Hff Hfld.
  destruct (decide (family ∈ FAMILIES)) as [Hfam|Hnot];
    [|apply family_fields_keys in Hnot; congruence].
  unfold FAMILIES in Hfam.
  repeat (apply elem_of_cons in Hfam as [->|Hfam]); [..|by apply elem_of_nil in Hfam];
    vm_compute in Hff; injection Hff as <-;
    repeat (apply elem_of_cons in Hfld as [->|Hfld]); try (by apply elem_of_nil in Hfld);
    by vm_compute.
Qed.

(** X12: in every emitted record, a GREATER_THAN or LESS_THAN condition has an
    integer value in 100..10000, and an EQUAL_TO or NOT_EQUAL_TO condition
    has a boolean value when its field is "mfa_enabled" (the one field
    that ends in "_enabled") and one of the four statuses otherwise. *)
Theorem emitted_scalar_values (num_valid num_duplicates num_invalid : Z) :
  returns (generate_rules num_valid num_duplicates num_invalid)
    (Forall (fun r => forall cs, conditions r = Some cs -> Forall scalar_ok cs)).
Proof.
  apply generate_rules_Forall. intros rule_num family dup inv Hfam.
  destruct (family_fields_total family Hfam) as (fields & Hff & Hne).
  eapply returns_mono.
  { eapply generate_rule_conditions; [exact Hff|].
    by apply generate_condition_scalar. }
  cbn beta. intros r Hr cs Hcs.
  eapply Forall_impl; [exact (Hr cs Hcs)|]. cbn beta.
  intros c [Hfield [Heq Hcmp]]. split; [|done].
  intros Hop. specialize (Heq Hop).
  rewrite (enabled_suffix_fields family fields (field c) Hff Hfield) in Heq.
  case_bool_decide; [by left|by right].
Qed.

End Scalars.

(** ** The two files of a run *)

Section Files.
Context {R : RandomGen}.

(** X13: for a total of at least 1 (below [2^52]), a file name that contains
    ".jsonl" and two paths that can be opened for writing, the run ends
    normally and leaves two files that agree: the rules file has exactly
    [total_rules] records, and the statistics file records the total, the
    three sizes (the floors of 5% and 3%, and the rest) and the family
    counts of exactly these records. *)
Theorem rules_and_stats_agree (filename : string) (total : Z) (w : world) :
  1 <= total < 2 ^ 52 -> Str.contains filename ".jsonl" = true ->
  open_error w filename = None ->
  open_error w (stats_path filename) = None ->
  exists rules w',
    generate_test_file filename total w = (None, w')
    /\ fs w' !! filename = Some (Jsonl rules)
    /\ fs w' !! stats_path filename
       = Some (Json (Stats total (total - total / 20 - 3 * total / 100)
                           (total / 20) (3 * total / 100) (family_counts rules)))
    /\ Z.of_nat (length rules) = total.
Proof.
  intros Hn Hc Ho1 Ho2.
  pose proof (partition_sizes_exact total ltac:(lia)) as Hp.
  rewrite !Z.quot_div_nonneg in Hp by lia.
  assert (Z.abs total < 2 ^ 52) as Habs by lia.
  destruct (generate_test_file_run filename total w _ _ _
              (below_2_52_below_2_1024 _ Habs) Hp Ho1 Ho2)
    as (rules & s & _ & (vs & ds & ivs & Hperm & Hv & Hd & Hi) & Hrun).
  cbn zeta in Hrun. rewrite decide_False in Hrun by lia.
  eexists rules, _. split; [exact Hrun|]. cbn [fs]. unfold written.
  pose proof (replace_jsonl_changes filename Hc) as Hne.
  split; [|split].
  - apply lookup_union_Some_l. rewrite lookup_insert_ne by done.
    apply lookup_insert_eq.
  - apply lookup_union_Some_l, lookup_insert_eq.
  - rewrite Hperm, !length_app.
    destruct Hv as [-> _], Hd as [-> _], Hi as [-> _].
    Z.div_mod_to_equations. lia.
Qed.

(** X14: the script as it is run: from any state of the generator and any file
    system in which "rules/test-rules-3k.jsonl" and
    "rules/test-rules-3k_stats.json" can be opened for writing, it ends
    normally, with 3000 records in the first and, in the second, the sizes
    2760, 150 and 90 and the family counts of these records. *)
Theorem main_writes_3000 (w : world) :
  open_error w "rules/test-rules-3k.jsonl" = None ->
  open_error w "rules/test-rules-3k_stats.json" = None ->
  exists rules w',
    main w = (None, w')
    /\ fs w' !! "rules/test-rules-3k.jsonl" = Some (Jsonl rules)
    /\ fs w' !! "rules/test-rules-3k_stats.json"
       = Some (Json (Stats 3000 2760 150 90 (family_counts rules)))
    /\ length rules = 3000%nat.
Proof.
  intros Ho1 Ho2.
  assert (partition_sizes 3000 = inr (2760, 150, 90)) as Hp by (by vm_compute).
  assert (Z.abs 3000 < 2 ^ 1024) as Hsmall by reflexivity.
  destruct (generate_test_file_run "rules/test-rules-3k.jsonl" 3000
              (World (seed 42) (fs w) (open_error w)) _ _ _ Hsmall Hp Ho1 Ho2)
    as (rules & s & _ & (vs & ds & ivs & Hperm & Hv & Hd & Hi) & Hrun).
  cbn zeta in Hrun. rewrite decide_False in Hrun by lia.
  eexists rules, _. split; [exact Hrun|]. cbn [fs]. unfold written.
  split; [|split].
  - apply lookup_union_Some_l. rewrite lookup_insert_ne by done.
    apply lookup_insert_eq.
  - apply lookup_union_Some_l, lookup_insert_eq.
  - rewrite Hperm, !length_app.
    destruct Hv as [-> _], Hd as [-> _], Hi as [-> _]. lia.
Qed.


End Files.

Lemma rules_and_stats_agree_20 :
  1 <= 20 < 2 ^ 52 /\ Str.contains "rules.jsonl" ".jsonl" = true /\
  exists rules w',
    generate_test_file "rules.jsonl" 20 (@writable_world LCG_random 42 ∅) = (None, w')
    /\ fs w' !! "rules.jsonl" = Some (Jsonl rules)
    /\ Z.of_nat (length rules) = 20.
Proof.
  assert (1 <= 20 < 2 ^ 52) as H by (split; [lia|reflexivity]).
  split; [exact H|]. split; [reflexivity|].
  destruct (@rules_and_stats_agree LCG_random "rules.jsonl" 20
              (@writable_world LCG_random 42 ∅) H eq_refl eq_refl eq_refl)
    as (rules & w' & Hrun & Hrules & _ & Hlen).
  exists rules, w'. split; [exact Hrun|]. split; [exact Hrules|exact Hlen].
Defined.

Lemma main_writes_3000_writable :
  exists rules w',
    main (@writable_world LCG_random 0 ∅) = (None, w')
    /\ fs w' !! "rules/test-rules-3k.jsonl" = Some (Jsonl rules)
    /\ length rules = 3000%nat.
Proof.
  destruct (@main_writes_3000 LCG_random (@writable_world LCG_random 0 ∅)
              eq_refl eq_refl)
    as (rules & w' & Hrun & Hrules & _ & Hlen).
  exists rules, w'. split; [exact Hrun|]. split; [exact Hrules|exact Hlen].
Defined.

